(** * Myanmar Subtitle Translator: a shallow embedding of [main.py]

    The development follows the class [SubtitleTranslator]:

    - Python [str] values are lists of Unicode code points ([list N]);
      the built-ins the program calls on them ([str.strip], [str.split],
      [str.join], [in], [int], [re.match] with the pattern [^\d+$] and the
      formatting of an [int] in an f-string) are written out below, with the
      tables of CPython 3.11 (Unicode 14.0.0);
    - Python [int] is [Z] (unbounded; the interpreter's configurable cap on
      the number of digits converted between [str] and [int] is left out);
    - a subtitle [dict] is a record with the five keys [parse_srt] creates
      (one fresh [dict] for each block, so no two positions of the list
      alias and in-place updates are updates of the list);
    - the outside world is explicit: the file system maps a path to the text
      [open(...).read()] yields for it (decoded, line ends translated), the
      provider and the [json] codec are parameters, the operator's answers
      to [input] are a list of lines, and the exceptions that leave a method
      are values of [exn];
    - what the program prints, and its pauses, are left out, except for a
      record of the entries the review shows. *)

From Stdlib Require Import ZArith NArith Lia List String Ascii.
From stdpp Require Import base option list gmap.

Open Scope N_scope.

(** ** Strings *)

Abbreviation str := (list N) (only parsing).

(** A literal: the code points of an ASCII/Latin-1 string. *)
Definition py (s : string) : str :=
  map N_of_ascii (list_ascii_of_string s).
Arguments py s%_string.

Definition nl : str := [10].
Definition nlnl : str := [10; 10].

(** [str.isspace] on one character ([Py_UNICODE_ISSPACE]). *)
Definition isspace (c : N) : bool :=
  ((0x09 <=? c) && (c <=? 0x0D)) || ((0x1C <=? c) && (c <=? 0x20))
  || (c =? 0x85) || (c =? 0xA0) || (c =? 0x1680)
  || ((0x2000 <=? c) && (c <=? 0x200A))
  || (c =? 0x2028) || (c =? 0x2029) || (c =? 0x202F) || (c =? 0x205F)
  || (c =? 0x3000).

Fixpoint lstrip (s : str) : str :=
  match s with
  | c :: r => if isspace c then lstrip r else s
  | [] => []
  end.

Definition rstrip (s : str) : str := rev (lstrip (rev s)).

(** [s.strip()] *)
Definition strip (s : str) : str := rstrip (lstrip s).

(** [s.split('\n')] *)
Fixpoint split_nl (s : str) : list str :=
  match s with
  | [] => [[]]
  | c :: r =>
      if c =? 10 then [] :: split_nl r
      else match split_nl r with
           | piece :: pieces => (c :: piece) :: pieces
           | [] => [[c]]
           end
  end.

(** [s.split('\n\n')]: the leftmost separator first, no overlaps. *)
Fixpoint split_nlnl (s : str) : list str :=
  match s with
  | [] => [[]]
  | c :: r =>
      let cont :=
        match split_nlnl r with
        | piece :: pieces => (c :: piece) :: pieces
        | [] => [[c]]
        end in
      match r with
      | d :: r' => if (c =? 10) && (d =? 10) then [] :: split_nlnl r' else cont
      | [] => cont
      end
  end.

(** [sep.join(pieces)] *)
Fixpoint join (sep : str) (pieces : list str) : str :=
  match pieces with
  | [] => []
  | [p] => p
  | p :: ps => p ++ sep ++ join sep ps
  end.

Fixpoint startswith (prefix s : str) : bool :=
  match prefix, s with
  | [], _ => true
  | p :: prefix', c :: s' => (p =? c) && startswith prefix' s'
  | _ :: _, [] => false
  end.

(** [needle in s] *)
Fixpoint contains (needle s : str) : bool :=
  startswith needle s ||
  match s with
  | _ :: r => contains needle r
  | [] => false
  end.

(** ** Decimal digits and integers *)

(** The code points of the digit zero of every decimal system of Unicode
    14.0.0 (category Nd); the nine that follow each are its digits 1 to 9. *)
Definition decimal_zeros : list N :=
  [48; 1632; 1776; 1984; 2406; 2534; 2662; 2790; 2918; 3046; 3174; 3302;
   3430; 3558; 3664; 3792; 3872; 4160; 4240; 6112; 6160; 6470; 6608; 6784;
   6800; 6992; 7088; 7232; 7248; 42528; 43216; 43264; 43472; 43504; 43600;
   44016; 65296; 66720; 68912; 69734; 69872; 69942; 70096; 70384; 70736;
   70864; 71248; 71360; 71472; 71904; 72016; 72784; 73040; 73120; 92768;
   92864; 93008; 120782; 120792; 120802; 120812; 120822; 123200; 123632;
   125264; 130032].

(** [Py_UNICODE_TODECIMAL]: the value of a decimal digit. *)
Definition to_decimal (c : N) : option N :=
  match List.find (fun z => (z <=? c) && (c <? z + 10)) decimal_zeros with
  | Some z => Some (c - z)
  | None => None
  end.

(** [\d] of the [re] module on [str] patterns. *)
Definition isdecimal (c : N) : bool :=
  match to_decimal c with Some _ => true | None => false end.

(** [re.match(r'^\d+$', s)]: one or more digits up to the end of [s], or up
    to a newline that ends [s]. *)
Fixpoint digits_to_end (s : str) : bool :=
  match s with
  | [] => true
  | c :: r => if (c =? 10) && bool_decide (r = []) then true
              else isdecimal c && digits_to_end r
  end.

Definition re_match_digits (s : str) : bool :=
  match s with
  | c :: r => isdecimal c && digits_to_end r
  | [] => false
  end.

(** White space as [int] skips it: the ASCII white space of C, and every
    other white-space character of Unicode (which [int] first turns into a
    blank); the ASCII separators 0x1C to 0x1F are not among them. *)
Definition int_space (c : N) : bool :=
  if c <? 127 then ((0x09 <=? c) && (c <=? 0x0D)) || (c =? 0x20)
  else isspace c.

Fixpoint skip_int_space (s : str) : str :=
  match s with
  | c :: r => if int_space c then skip_int_space r else s
  | [] => []
  end.

(** The digits of a literal, most significant first, a single underscore
    allowed between two digits; returns the value and what follows. *)
Fixpoint int_digits (acc : N) (after_underscore : bool) (s : str)
  : option (N * str) :=
  match s with
  | c :: r =>
      if c =? 95 then
        if after_underscore then None else int_digits acc true r
      else
        match to_decimal c with
        | Some d => int_digits (10 * acc + d) false r
        | None => if after_underscore then None else Some (acc, s)
        end
  | [] => if after_underscore then None else Some (acc, [])
  end.

(** [int(s)]; [None] stands for [ValueError]. *)
Definition py_int (s : str) : option Z :=
  let s := skip_int_space s in
  let '(negative, s) :=
    match s with
    | c :: r => if c =? 45 then (true, r)
                else if c =? 43 then (false, r) else (false, s)
    | [] => (false, s)
    end in
  match s with
  | c :: _ =>
      if isdecimal c then
        match int_digits 0 false s with
        | Some (n, rest) =>
            match skip_int_space rest with
            | [] => Some (if negative then - Z.of_N n else Z.of_N n)%Z
            | _ :: _ => None
            end
        | None => None
        end
      else None
  | [] => None
  end.

(** The decimal digits of [n] in front of [acc]; [fuel] bounds their number. *)
Fixpoint digits_of (fuel : nat) (n : N) (acc : str) : str :=
  match fuel with
  | O => acc
  | S fuel' =>
      let acc' := (48 + n mod 10) :: acc in
      if n <? 10 then acc' else digits_of fuel' (n / 10) acc'
  end.

Definition str_of_N (n : N) : str := digits_of (S (N.to_nat (N.log2 n))) n [].

(** [str(z)], which is what [f"{z}"] writes for an [int]. *)
Definition py_str (z : Z) : str :=
  match z with
  | Zneg p => 45 :: str_of_N (Npos p)
  | _ => str_of_N (Z.to_N z)
  end.

(** ** The subtitle document *)

Inductive exn :=
  | ValueError | IndexError | FileNotFoundError | JSONDecodeError | EOFError.

Inductive result (A : Type) :=
  | Ok (a : A)
  | Raise (e : exn).
Arguments Ok {A} a.
Arguments Raise {A} e.

Record subtitle := {
  id : Z;
  timing : str;
  original_text : str;
  translated_text : str;
  needs_review : bool;
}.

(** [subtitle['translated_text'] = text] *)
Definition set_translated_text (text : str) (sub : subtitle) : subtitle :=
  {| id := id sub;
     timing := timing sub;
     original_text := original_text sub;
     translated_text := text;
     needs_review := needs_review sub |}.

(** [l[k]] for a Python [int] [k]: a negative index counts from the end. *)
Definition getitem {A} (l : list A) (k : Z) : option A :=
  if (k <? 0)%Z then
    if (Z.of_nat (length l) + k <? 0)%Z then None
    else l !! Z.to_nat (Z.of_nat (length l) + k)
  else l !! Z.to_nat k.

(** The loop [for block in blocks] of [parse_srt], with the list
    [subtitles] built so far. *)
Fixpoint parse_blocks (blocks : list str) (subtitles : list subtitle)
  : result (list subtitle) :=
  match blocks with
  | [] => Ok subtitles
  | block :: blocks' =>
      let lines := split_nl (strip block) in
      if (3 <=? length lines)%nat then
        match py_int (nth 0 lines []) with
        | Some n =>
            let sub :=
              {| id := n;
                 timing := nth 1 lines [];
                 original_text := join nl (drop 2 lines);
                 translated_text := [];
                 needs_review := false |} in
            parse_blocks blocks' (subtitles ++ [sub])
        | None => Raise ValueError
        end
      else parse_blocks blocks' subtitles
  end.

(** What [parse_srt] does with the text read from the file. *)
Definition parse_content (content : str) : result (list subtitle) :=
  parse_blocks (split_nlnl (strip content)) [].

Definition parse_srt (file_path : str) (fs : gmap (list N) (list N))
  : result (list subtitle) :=
  match fs !! file_path with
  | Some content => parse_content content
  | None => Raise FileNotFoundError
  end.

(** [f.write(data)] on the text written so far. *)
Definition write (f data : str) : str := f ++ data.

(** The loop [for subtitle in subtitles] of [export_srt]. *)
Fixpoint export_entries (subtitles : list subtitle) (f : str) : str :=
  match subtitles with
  | [] => f
  | sub :: subtitles' =>
      let f := write f (py_str (id sub) ++ nl) in
      let f := write f (timing sub ++ nl) in
      let f := write f (translated_text sub ++ nl ++ nl) in
      export_entries subtitles' f
  end.

Definition export_srt (subtitles : list subtitle) (output_path : str)
    (fs : gmap (list N) (list N)) : gmap (list N) (list N) :=
  <[output_path := export_entries subtitles []]> fs.

(** An entry that is no prose: both the translation pass and the review
    skip it. *)
Definition is_structural (sub : subtitle) : bool :=
  re_match_digits (strip (original_text sub))
  || contains (py "-->") (original_text sub).

(** ** The translator *)

(** The [SubtitleTranslator] object and the world around it. *)
Record state := {
  translation_memory : gmap (list N) (list N);
  requests : list str;   (* the texts given to the provider, oldest first *)
  fs : gmap (list N) (list N);
  stdin : list str;      (* the lines the operator will type *)
}.

Definition memory_path : str := py "translation_memory.json".

(** [f"[Translation Error: {text}]"] *)
Definition placeholder (text : str) : str :=
  py "[Translation Error: " ++ text ++ py "]".

(** The local state of the loop of [interactive_review]. *)
Record review := {
  subtitles : list subtitle;
  i : Z;
  world : state;
  presented : list Z;   (* the indices of the entries shown, oldest first *)
}.

(** How one iteration of the loop ends. *)
Inductive step :=
  | Continue (r : review)          (* the condition is tested again *)
  | Finished (r : review)          (* the condition was false, or [break] *)
  | Raised (e : exn) (r : review). (* an exception leaves the method *)

(** [l[k] = x] for a Python [int] [k] in range. *)
Definition setitem {A} (l : list A) (k : Z) (x : A) : list A :=
  if (k <? 0)%Z then <[Z.to_nat (Z.of_nat (length l) + k) := x]> l
  else <[Z.to_nat k := x]> l.

Definition set_stdin (lines : list str) (s : state) : state :=
  {| translation_memory := translation_memory s;
     requests := requests s; fs := fs s; stdin := lines |}.

(** [self.translation_memory[key] = value] *)
Definition remember (key value : str) (s : state) : state :=
  {| translation_memory := <[key := value]> (translation_memory s);
     requests := requests s; fs := fs s; stdin := stdin s |}.

Definition goto (k : Z) (w : state) (r : review) : review :=
  {| subtitles := subtitles r; i := k; world := w; presented := presented r |}.

(** One iteration of [while i < len(subtitles)]. *)
Definition review_iteration (r : review) : step :=
  if negb (i r <? Z.of_nat (length (subtitles r)))%Z then Finished r
  else
    match getitem (subtitles r) (i r) with
    | None => Raised IndexError r
    | Some sub =>
        if re_match_digits (strip (original_text sub))
           || contains (py "-->") (original_text sub)
        then Continue (goto (i r + 1) (world r) r)
        else
          let r := {| subtitles := subtitles r; i := i r; world := world r;
                      presented := presented r ++ [i r] |} in
          match stdin (world r) with
          | [] => Raised EOFError r
          | line :: lines =>
              let choice := strip line in
              let w := set_stdin lines (world r) in
              if bool_decide (choice = py "1") then
                Continue (goto (i r + 1) w r)
              else if bool_decide (choice = py "2") then
                match lines with
                | [] => Raised EOFError (goto (i r) w r)
                | line' :: lines' =>
                    let new_translation := strip line' in
                    let w := set_stdin lines' w in
                    if bool_decide (new_translation = []) then
                      Continue (goto (i r + 1) w r)
                    else
                      Continue
                        {| subtitles :=
                             setitem (subtitles r) (i r)
                               (set_translated_text new_translation sub);
                           i := i r + 1;
                           world := remember (original_text sub) new_translation w;
                           presented := presented r |}
                end
              else if bool_decide (choice = py "3") then
                Continue (goto (i r + 1) w r)
              else if bool_decide (choice = py "4") then
                Continue (goto (Z.max 0 (i r - 1)) w r)
              else if bool_decide (choice = py "5") then
                Finished (goto (i r) w r)
              else
                Continue (goto (i r + 1) w r)
          end
    end.

(** The loop, for at most [fuel] iterations. *)
Fixpoint review_loop (fuel : nat) (r : review) : option step :=
  match fuel with
  | O => None
  | S fuel' =>
      match review_iteration r with
      | Continue r' => review_loop fuel' r'
      | last => Some last
      end
  end.

(** Iterations that suffice from the cursor [0]: an iteration that reads
    nothing moves the cursor forward, and every other one reads a line. *)
Definition review_fuel (subs : list subtitle) (s : state) : nat :=
  S (length (stdin s) * S (length subs) + length subs).

(** The state in which [interactive_review] enters its loop: [i = 0]. *)
Definition review_start (subs : list subtitle) (s : state) : review :=
  {| subtitles := subs; i := 0; world := s; presented := [] |}.

Section Translator.

(** [self.translator.translate(text, src='en', dest='my').text], given the
    texts asked before; [None] when the call raises. *)
Variable provider : list str -> str -> option str.

(** [json.load] ([None] when the text is no JSON) and [json.dump]. *)
Variable json_loads : str -> option (gmap (list N) (list N)).
Variable json_dumps : gmap (list N) (list N) -> str.

Definition load_memory (fs : gmap (list N) (list N))
  : result (gmap (list N) (list N)) :=
  match fs !! memory_path with
  | Some content =>
      match json_loads content with
      | Some memory => Ok memory
      | None => Raise JSONDecodeError
      end
  | None => Ok ∅
  end.

Definition save_memory (s : state) : state :=
  {| translation_memory := translation_memory s;
     requests := requests s;
     fs := <[memory_path := json_dumps (translation_memory s)]> (fs s);
     stdin := stdin s |}.

Definition translate_text (text : str) (s : state) : str * state :=
  if bool_decide (strip text = []) then (text, s)
  else
    match translation_memory s !! text with
    | Some cached => (cached, s)
    | None =>
        let sent := requests s ++ [text] in
        match provider (requests s) text with
        | Some translated =>
            (translated,
             {| translation_memory := <[text := translated]> (translation_memory s);
                requests := sent; fs := fs s; stdin := stdin s |})
        | None =>
            (placeholder text,
             {| translation_memory := translation_memory s;
                requests := sent; fs := fs s; stdin := stdin s |})
        end
    end.

Fixpoint auto_translate_all (subtitles : list subtitle) (s : state)
  : list subtitle * state :=
  match subtitles with
  | [] => ([], s)
  | sub :: subtitles' =>
      if re_match_digits (strip (original_text sub)) then
        let '(rest, s') := auto_translate_all subtitles' s in
        (sub :: rest, s')
      else if contains (py "-->") (original_text sub) then
        let '(rest, s') := auto_translate_all subtitles' s in
        (sub :: rest, s')
      else
        let '(text, s1) := translate_text (original_text sub) s in
        let '(rest, s2) := auto_translate_all subtitles' s1 in
        (set_translated_text text sub :: rest, s2)
  end.

(** [interactive_review]: the loop, then [self.save_memory()] unless an
    exception has left the loop. *)
Definition interactive_review (subs : list subtitle) (s : state)
  : option step :=
  match review_loop (review_fuel subs s) (review_start subs s) with
  | Some (Finished r) =>
      Some (Finished {| subtitles := subtitles r; i := i r;
                        world := save_memory (world r);
                        presented := presented r |})
  | other => other
  end.

End Translator.

(** ** Well-formed documents

    The document format: blocks separated by one blank line, each block an
    integer line, a timing line and one or more text lines, with any white
    space after the last block. *)

Record block := {
  block_id : Z;
  block_timing : str;
  block_text : list str;
}.

Definition block_lines (b : block) : list str :=
  py_str (block_id b) :: block_timing b :: block_text b.

Definition document (blocks : list block) (trailing : str) : str :=
  join nlnl (map (fun b => join nl (block_lines b)) blocks) ++ trailing.

(** A line of a block: not empty, and without a line break. *)
Definition no_nl (l : str) : bool := forallb (fun c => negb (c =? 10)) l.

Definition is_line (l : str) : bool := negb (bool_decide (l = [])) && no_nl l.

Definition has_text (l : str) : bool := existsb (fun c => negb (isspace c)) l.

(** The timing line and the text lines are lines, there is a text line, and
    the last text line is not white space only. *)
Definition well_formed_block (b : block) : bool :=
  is_line (block_timing b)
  && forallb is_line (block_text b)
  && match last (block_text b) with
     | Some l => has_text l
     | None => false
     end.

(** Trailing-white-space normalization: white space is removed from the end
    of every line and from the end of the document. *)
Definition norm_lines (doc : str) : list str := map rstrip (split_nl doc).

Definition normalize (doc : str) : str := rstrip (join nl (norm_lines doc)).

(** Every entry's [translated_text] set to its [original_text]. *)
Definition copy_source (subs : list subtitle) : list subtitle :=
  map (fun sub => set_translated_text (original_text sub) sub) subs.

(** What [export_srt] writes for one entry. *)
Definition export_block (sub : subtitle) : str :=
  py_str (id sub) ++ nl ++ timing sub ++ nl ++ translated_text sub ++ nl ++ nl.

(** The entry [parse_srt] makes of a block with three lines or more. *)
Definition entry_of_lines (lines : list str) (n : Z) : subtitle :=
  {| id := n;
     timing := nth 1 lines [];
     original_text := join nl (drop 2 lines);
     translated_text := [];
     needs_review := false |}.

(** A text without an empty line inside and without a line break at its
    end: [split('\n\n')] cannot cut inside it. *)
Fixpoint tight (s : str) : bool :=
  match s with
  | [] => true
  | c :: r =>
      match r with
      | [] => negb (c =? 10)
      | d :: _ => negb ((c =? 10) && (d =? 10)) && tight r
      end
  end.

(** The digits [0] to [9] of ASCII. *)
Definition ascii_digit (c : N) : bool := (48 <=? c) && (c <=? 57).

(** The value of a run of ASCII digits read after the value [acc]. *)
Definition digits_value (ds : list N) (acc : N) : N :=
  fold_left (fun a c => 10 * a + (c - 48)) ds acc.

(** The test [len(lines) >= 3] of [parse_srt] on a block. *)
Definition shaped (block : str) : bool :=
  (3 <=? length (split_nl (strip block)))%nat.

(** [sub] is the entry [parse_srt] makes of [block]. *)
Definition block_entry (block : str) (sub : subtitle) : Prop :=
  exists n, py_int (nth 0 (split_nl (strip block)) []) = Some n
            /\ sub = entry_of_lines (split_nl (strip block)) n.

(** The lines of a block with the white space at its end removed. *)
Fixpoint trim_last (ls : list str) : list str :=
  match ls with
  | [] => []
  | [l] => [rstrip l]
  | l :: ls' => l :: trim_last ls'
  end.

Definition trimmed_lines (b : block) : list str :=
  py_str (block_id b) :: block_timing b :: trim_last (block_text b).

(** The entry a well-formed block is parsed to. *)
Definition entry_of_block (b : block) : subtitle :=
  {| id := block_id b;
     timing := block_timing b;
     original_text := join nl (trim_last (block_text b));
     translated_text := [];
     needs_review := false |}.

(** [text] is the text of the block [b], as written or with the white
    space at its end removed. *)
Definition block_text_of (b : block) (text : str) : Prop :=
  text = join nl (block_lines b) \/ text = join nl (trimmed_lines b).

(** ** Sample documents *)

Definition sample_blocks : list block :=
  [ {| block_id := 1;
       block_timing := py "00:00:01,000 --> 00:00:02,000";
       block_text := [py "Hello"] |};
    {| block_id := 2;
       block_timing := py "00:00:03,000 --> 00:00:04,000";
       block_text := [py "World"] |} ].

Definition sample_document : str := py "1
00:00:01,000 --> 00:00:02,000
Hello

2
00:00:03,000 --> 00:00:04,000
World

".

(** Ids out of order and repeated, white space at the end of text lines, and
    three line breaks at the end. *)
Definition shuffled_blocks : list block :=
  [ {| block_id := 7; block_timing := py "00:00:05,000 --> 00:00:06,000 ";
       block_text := [py "Hello  "; py "there "] |};
    {| block_id := 3; block_timing := py "00:00:01,000 --> 00:00:02,000";
       block_text := [py "World"] |};
    {| block_id := 3; block_timing := py "x"; block_text := [py "again"] |} ].

(** A block of one line between two blocks of three lines. *)
Definition document_with_note : str := py "9
00:00:01,000 --> 00:00:02,000
Hello

a note

4
00:00:03,000 --> 00:00:04,000
World".

(** A block of three lines whose first line is no integer. *)
Definition document_with_bad_id : str := py "1
00:00:01,000 --> 00:00:02,000
Hello

two
00:00:03,000 --> 00:00:04,000
World".

Definition in_path : str := py "movie.srt".
Definition out_path : str := py "translated.srt".

(** ** Sample passes *)

(** How often the provider has been asked for [text]. *)
Definition asked (text : str) (s : state) : nat :=
  length (List.filter (fun request => bool_decide (request = text)) (requests s)).

(** The state after a provider failure for [text]: the request is on
    record, and nothing else has changed. *)
Definition after_failure (text : str) (s : state) : state :=
  {| translation_memory := translation_memory s;
     requests := requests s ++ [text];
     fs := fs s; stdin := stdin s |}.

Definition empty_state : state :=
  {| translation_memory := ∅; requests := []; fs := ∅; stdin := [] |}.

Definition hello_entry : subtitle :=
  {| id := 1; timing := py "00:00:01,000 --> 00:00:02,000";
     original_text := py "Hello"; translated_text := [];
     needs_review := false |}.

Definition world_entry : subtitle :=
  {| id := 2; timing := py "00:00:03,000 --> 00:00:04,000";
     original_text := py "World"; translated_text := [];
     needs_review := false |}.

(** A provider that is down. *)
Definition provider_down (history : list str) (text : str) : option str :=
  None.

(** A provider that fails on the first request and answers every later one. *)
Definition provider_flaky (history : list str) (text : str) : option str :=
  match history with
  | [] => None
  | _ :: _ => Some (py "Hi")
  end.

(** A provider that answers every request. *)
Definition provider_up (history : list str) (text : str) : option str :=
  Some (py "<" ++ text ++ py ">").

(** Two entries that differ in their translated text at most. *)
Definition same_but_translation (before after : subtitle) : Prop :=
  id after = id before
  /\ timing after = timing before
  /\ original_text after = original_text before
  /\ needs_review after = needs_review before.

(** In the pass over [subs] from the state [s], the provider is asked for
    [text] at most once, and all the prose entries with that text get one
    and the same translation. *)
Definition translated_once (provider : list str -> str -> option str)
    (subs : list subtitle) (s : state) (text : str) : Prop :=
  let pass := auto_translate_all provider subs s in
  (asked text pass.2 <= asked text s + 1)%nat
  /\ exists translation,
       Forall (fun sub => original_text sub = text ->
                          is_structural sub = false ->
                          translated_text sub = translation) pass.1.

(** ** Review sessions *)

Definition state_of (outcome : step) : review :=
  match outcome with
  | Continue r | Finished r | Raised _ r => r
  end.

(** The states in which the condition of the loop is tested, from [r0] on. *)
Inductive reachable (r0 : review) : review -> Prop :=
  | reachable_start : reachable r0 r0
  | reachable_next (r r' : review) :
      reachable r0 r -> review_iteration r = Continue r' -> reachable r0 r'.

(** [k] is the index of an entry of [subs] that is prose. *)
Definition prose_at (subs : list subtitle) (k : Z) : Prop :=
  (0 <= k < Z.of_nat (length subs))%Z
  /\ exists sub, subs !! Z.to_nat k = Some sub /\ is_structural sub = false.

(** What every state of a session over [subs] satisfies. *)
Definition review_inv (subs : list subtitle) (r : review) : Prop :=
  map original_text (subtitles r) = map original_text subs
  /\ (0 <= i r <= Z.of_nat (length subs))%Z
  /\ Forall (prose_at subs) (presented r).

(** What is left to do: lines to read, and entries to pass. *)
Definition review_measure (r : review) : nat :=
  length (stdin (world r)) * S (length (subtitles r))
  + Z.to_nat (Z.of_nat (length (subtitles r)) - i r).

(** A decoder that knows the empty object only. *)
Definition json_loads_empty (content : str) : option (gmap (list N) (list N)) :=
  if bool_decide (strip content = py "{}") then Some ∅ else None.

Definition json_dumps_size (memory : gmap (list N) (list N)) : str :=
  py "{" ++ py_str (Z.of_nat (size memory)) ++ py "}".

(** An entry that is a number, between two entries of prose. *)
Definition number_entry : subtitle :=
  {| id := 5; timing := py "00:00:02,000 --> 00:00:03,000";
     original_text := py "42"; translated_text := [];
     needs_review := false |}.

Definition sample_entries : list subtitle :=
  [hello_entry; number_entry; world_entry].

(** The operator goes back, accepts, and accepts. *)
Definition sample_session : state :=
  {| translation_memory := ∅; requests := []; fs := ∅;
     stdin := [py "4"; py "1"; py " 1 "] |}.

(** ** Statistics and the main menu *)

(** [answer.strip().lower() == 'y']: of all strings only [y] and [Y] are
    turned into [y] by [str.lower]. *)
Definition is_yes (answer : str) : bool :=
  bool_decide (strip answer = py "y") || bool_decide (strip answer = py "Y").

(** The numbers [show_statistics] prints. The percentage it prints between
    them is the floating-point quotient of the first two and is left out. *)
Record statistics := {
  total_lines : nat;
  translated_lines : nat;
  memory_entries : nat;
}.

(** [len([s for s in subtitles if not re.match(...) and '-->' not in ...])] *)
Definition count_prose (subs : list subtitle) : nat :=
  length (List.filter (fun sub =>
            negb (re_match_digits (strip (original_text sub)))
            && negb (contains (py "-->") (original_text sub))) subs).

(** [len([s for s in subtitles if s['translated_text']])] *)
Definition count_translated (subs : list subtitle) : nat :=
  length (List.filter (fun sub => negb (bool_decide (translated_text sub = [])))
            subs).

(** [show_statistics]; [None] stands for the [ZeroDivisionError] of
    [translated_lines/total_lines]. *)
Definition show_statistics (subs : list subtitle) (s : state)
  : option statistics :=
  let total := count_prose subs in
  let translated := count_translated subs in
  if (total =? 0)%nat then None
  else Some {| total_lines := total;
               translated_lines := translated;
               memory_entries := size (translation_memory s) |}.

(** What ends the program abnormally. *)
Inductive crash :=
  | ZeroDivisionError
  | Uncaught (e : exn).

(** How one round of the menu of [main] ends. *)
Inductive menu_step :=
  | Again (s : state)                (* the menu is shown again *)
  | Quit (s : state)                 (* [break] *)
  | Crashed (c : crash) (s : state). (* an exception ends the program *)

(** [self.translation_memory = memory] *)
Definition set_memory (memory : gmap (list N) (list N)) (s : state) : state :=
  {| translation_memory := memory;
     requests := requests s; fs := fs s; stdin := stdin s |}.

Definition set_fs (files : gmap (list N) (list N)) (s : state) : state :=
  {| translation_memory := translation_memory s;
     requests := requests s; fs := files; stdin := stdin s |}.

Section Main.

Variable provider : list str -> str -> option str.
Variable json_loads : str -> option (gmap (list N) (list N)).
Variable json_dumps : gmap (list N) (list N) -> str.

(** The file translation workflow of [main], from the parsed entries on;
    [None] only if the review ran out of fuel. *)
Definition translate_file (subs : list subtitle) (s : state)
  : option menu_step :=
  let '(subs, s) := auto_translate_all provider subs s in
  match stdin s with
  | [] => Some (Crashed (Uncaught EOFError) s)
  | review :: lines =>
      let s := set_stdin lines s in
      let reviewed :=
        if is_yes review then
          match interactive_review json_dumps subs s with
          | Some (Finished r) => Some (inr (subtitles r, world r))
          | Some (Raised e r) => Some (inl (e, world r))
          | Some (Continue r) => None
          | None => None
          end
        else Some (inr (subs, s)) in
      match reviewed with
      | None => None
      | Some (inl (e, s)) => Some (Crashed (Uncaught e) s)
      | Some (inr (subs, s)) =>
          match stdin s with
          | [] => Some (Crashed (Uncaught EOFError) s)
          | answer :: lines =>
              let s := set_stdin lines s in
              let output_path :=
                if bool_decide (strip answer = []) then py "translated.srt"
                else strip answer in
              let s := set_fs (export_srt subs output_path (fs s)) s in
              Some (Again (save_memory json_dumps s))
          end
      end
  end.

(** One round of [while True] of [main]. *)
Definition menu_round (s : state) : option menu_step :=
  match stdin s with
  | [] => Some (Crashed (Uncaught EOFError) s)
  | line :: lines =>
      let choice := strip line in
      let s := set_stdin lines s in
      if bool_decide (choice = py "1") then
        match stdin s with
        | [] => Some (Crashed (Uncaught EOFError) s)
        | line' :: lines' =>
            let file_path := strip line' in
            let s := set_stdin lines' s in
            match fs s !! file_path with
            | None => Some (Again s)
            | Some _ =>
                match parse_srt file_path (fs s) with
                | Raise e => Some (Crashed (Uncaught e) s)
                | Ok subs => translate_file subs s
                end
            end
        end
      else if bool_decide (choice = py "2") then
        match show_statistics [] s with
        | None => Some (Crashed ZeroDivisionError s)
        | Some _ => Some (Again s)
        end
      else if bool_decide (choice = py "3") then
        match stdin s with
        | [] => Some (Crashed (Uncaught EOFError) s)
        | confirm :: lines' =>
            let s := set_stdin lines' s in
            if is_yes confirm then
              Some (Again (save_memory json_dumps (set_memory ∅ s)))
            else Some (Again s)
        end
      else if bool_decide (choice = py "4") then Some (Quit s)
      else Some (Again s)
  end.

(** The menu, for at most [fuel] rounds. *)
Fixpoint menu_loop (fuel : nat) (s : state) : option menu_step :=
  match fuel with
  | O => None
  | S fuel' =>
      match menu_round s with
      | Some (Again s') => menu_loop fuel' s'
      | last => last
      end
  end.

(** [main], started with the files [files] and the operator's lines
    [lines]: the translator is made, which loads the memory, and the menu
    runs; every round reads a line, so one round more than there are lines
    suffices. *)
Definition main (files : gmap (list N) (list N)) (lines : list str)
  : option menu_step :=
  match load_memory json_loads files with
  | Raise e =>
      Some (Crashed (Uncaught e)
              {| translation_memory := ∅; requests := [];
                 fs := files; stdin := lines |})
  | Ok memory =>
      menu_loop (S (length lines))
        {| translation_memory := memory; requests := [];
           fs := files; stdin := lines |}
  end.

End Main.

(** What holds of every entry [parse_srt] returns. *)
Definition parsed_shape (sub : subtitle) : Prop :=
  translated_text sub = [] /\ needs_review sub = false
  /\ timing sub <> [] /\ no_nl (timing sub) = true
  /\ strip (original_text sub) <> []
  /\ rstrip (original_text sub) = original_text sub.



(** The state after the provider has answered [answer] for [text]. *)
Definition after_answer (text answer : str) (s : state) : state :=
  remember text answer (after_failure text s).

(** An entry the pass leaves as it is in the state [s]: it is structural, or
    blank and translated to itself, or translated to what the memory holds
    for its text. *)
Definition settled (s : state) (sub : subtitle) : Prop :=
  is_structural sub = true
  \/ (strip (original_text sub) = []
      /\ translated_text sub = original_text sub)
  \/ (strip (original_text sub) <> []
      /\ translation_memory s !! original_text sub = Some (translated_text sub)).

(** An entry before and after a review: only the translated text may
    differ, and not even that when the entry is structural. *)
Definition kept (before after : subtitle) : Prop :=
  same_but_translation before after
  /\ (is_structural before = true -> after = before).

(** The original texts of the prose entries. *)
Definition prose_texts (subs : list subtitle) : list str :=
  map original_text (List.filter (fun sub => negb (is_structural sub)) subs).

(** What relates a state of a review to an earlier one. *)
Definition review_rel (r0 r : review) : Prop :=
  Forall2 kept (subtitles r0) (subtitles r)
  /\ requests (world r) = requests (world r0)
  /\ fs (world r) = fs (world r0)
  /\ (exists read, stdin (world r0) = read ++ stdin (world r))
  /\ (forall key, ~ In key (prose_texts (subtitles r0)) ->
        translation_memory (world r) !! key
        = translation_memory (world r0) !! key).

(** The operator edits the first entry and finishes. *)
Definition editing_session : state :=
  {| translation_memory := ∅; requests := []; fs := ∅;
     stdin := [py "2"; py " Salut "; py "5"; py "1"] |}.


(** A [json.dump] for the examples: it writes the empty object for the
    empty mapping, which [json_loads_empty] reads. *)
Definition json_dumps_empty (memory : gmap (list N) (list N)) : str :=
  if bool_decide (memory = ∅) then py "{}" else py "{...}".

(** The operator clears the memory and leaves. *)
Definition clearing_session : state :=
  {| translation_memory := {[ py "Hello" := py "Salut" ]}; requests := [];
     fs := {[ memory_path := py "{...}" ]};
     stdin := [py "3"; py " Y"; py "4"] |}.


(** ** Facts about the string operations *)

Lemma lstrip_app_text (a b : list N) :
  has_text a = true -> lstrip (a ++ b) = lstrip a ++ b.
Proof.
  induction a as [|c a IH]; simpl; [discriminate|].
  destruct (isspace c); simpl; auto.
Qed.

Lemma lstrip_all_space (w : list N) :
  forallb isspace w = true -> lstrip w = [].
Proof.
  induction w as [|c w IH]; simpl; [done|].
  destruct (isspace c); simpl; [auto|discriminate].
Qed.

Lemma lstrip_space_app (w a : list N) :
  forallb isspace w = true -> lstrip (w ++ a) = lstrip a.
Proof.
  induction w as [|c w IH]; simpl; [done|].
  destruct (isspace c); simpl; [auto|discriminate].
Qed.

Lemma has_text_rev (a : list N) : has_text (rev a) = has_text a.
Proof.
  unfold has_text. induction a as [|c a IH]; simpl; [done|].
  rewrite existsb_app, IH. simpl. rewrite orb_false_r. apply orb_comm.
Qed.

Lemma forallb_rev {A} (f : A -> bool) (l : list A) :
  forallb f (rev l) = forallb f l.
Proof.
  induction l as [|x l IH]; simpl; [done|].
  rewrite forallb_app, IH. simpl. rewrite andb_true_r. apply andb_comm.
Qed.

Lemma rstrip_app_text (a b : list N) :
  has_text b = true -> rstrip (a ++ b) = a ++ rstrip b.
Proof.
  intros Hb. unfold rstrip. rewrite rev_app_distr.
  rewrite lstrip_app_text by (by rewrite has_text_rev).
  by rewrite rev_app_distr, rev_involutive.
Qed.

Lemma rstrip_app_space (a w : list N) :
  forallb isspace w = true -> rstrip (a ++ w) = rstrip a.
Proof.
  intros Hw. unfold rstrip. rewrite rev_app_distr.
  by rewrite lstrip_space_app by (by rewrite forallb_rev).
Qed.

Lemma rstrip_all_space (w : list N) :
  forallb isspace w = true -> rstrip w = [].
Proof.
  intros Hw. unfold rstrip. by rewrite lstrip_all_space by (by rewrite forallb_rev).
Qed.

(** What [lstrip] removes is white space, and what it leaves does not start
    with white space. *)
Lemma lstrip_spec (s : list N) :
  exists w, s = w ++ lstrip s /\ forallb isspace w = true.
Proof.
  induction s as [|c s [w [Hs Hw]]]; simpl.
  - by exists [].
  - destruct (isspace c) eqn:Hc.
    + exists (c :: w). simpl. rewrite Hc, Hw. split; [by f_equal|done].
    + by exists [].
Qed.

Lemma rstrip_spec (s : list N) :
  exists w, s = rstrip s ++ w /\ forallb isspace w = true.
Proof.
  destruct (lstrip_spec (rev s)) as [w [Hs Hw]].
  exists (rev w). split; [|by rewrite forallb_rev].
  unfold rstrip. rewrite <- rev_app_distr, <- Hs. by rewrite rev_involutive.
Qed.

Lemma lstrip_idem (s : list N) : lstrip (lstrip s) = lstrip s.
Proof.
  induction s as [|c s IH]; simpl; [done|].
  destruct (isspace c) eqn:Hc; [done|]. simpl. by rewrite Hc.
Qed.

Lemma rstrip_idem (s : list N) : rstrip (rstrip s) = rstrip s.
Proof.
  unfold rstrip. by rewrite rev_involutive, lstrip_idem.
Qed.

Lemma lstrip_text_head (c : N) (s : list N) :
  isspace c = false -> lstrip (c :: s) = c :: s.
Proof. intros Hc. simpl. by rewrite Hc. Qed.

Lemma join_cons (sep p : list N) (ps : list (list N)) :
  ps <> [] -> join sep (p :: ps) = p ++ sep ++ join sep ps.
Proof. by destruct ps. Qed.

Lemma join_snoc (sep p : list N) (ps : list (list N)) :
  ps <> [] -> join sep (ps ++ [p]) = join sep ps ++ sep ++ p.
Proof.
  induction ps as [|q ps IH]; [done|]. intros _.
  destruct ps as [|q' ps]; [done|].
  change ((q :: q' :: ps) ++ [p]) with (q :: ((q' :: ps) ++ [p])).
  rewrite join_cons by done.
  rewrite IH by done. rewrite (join_cons sep q (q' :: ps)) by done.
  by rewrite <- !app_assoc.
Qed.

Lemma split_nl_nonempty (s : list N) : split_nl s <> [].
Proof.
  destruct s as [|c s]; simpl; [done|].
  destruct (c =? 10); [done|]. by destruct (split_nl s).
Qed.

Lemma split_nl_app_nl (a b : list N) :
  split_nl (a ++ 10 :: b) = split_nl a ++ split_nl b.
Proof.
  induction a as [|c a IH]; simpl; [done|].
  rewrite IH. destruct (c =? 10); [done|].
  pose proof (split_nl_nonempty a). by destruct (split_nl a).
Qed.

Lemma split_nl_no_nl (l : list N) : no_nl l = true -> split_nl l = [l].
Proof.
  unfold no_nl. induction l as [|c l IH]; simpl; [done|].
  intros [Hc Hl]%andb_true_iff. rewrite IH by done.
  by destruct (c =? 10).
Qed.

(** Text without a line break added to a document goes to its last line. *)
Lemma split_nl_app_no_nl (a w : list N) :
  no_nl w = true ->
  exists ls l, split_nl a = ls ++ [l] /\ split_nl (a ++ w) = ls ++ [l ++ w].
Proof.
  intros Hw. induction a as [|c a (ls & l & Ha & Haw)]; simpl.
  - exists [], []. by rewrite split_nl_no_nl.
  - rewrite Ha, Haw. destruct (c =? 10).
    + by exists ([] :: ls), l.
    + destruct ls as [|l0 ls]; simpl.
      * by exists [], (c :: l).
      * by exists ((c :: l0) :: ls), l.
Qed.

Lemma split_nl_join (ls : list (list N)) :
  ls <> [] -> forallb no_nl ls = true -> split_nl (join nl ls) = ls.
Proof.
  induction ls as [|l ls IH]; [done|]. intros _ [Hl Hls]%andb_true_iff.
  destruct ls as [|l' ls].
  - by apply split_nl_no_nl.
  - rewrite join_cons by done. change (nl ++ ?x) with (10 :: x).
    rewrite split_nl_app_nl, split_nl_no_nl by done.
    by rewrite IH.
Qed.

Lemma join_split_nl (s : list N) : join nl (split_nl s) = s.
Proof.
  induction s as [|c s IH]; simpl; [done|].
  pose proof (split_nl_nonempty s) as Hne.
  destruct (c =? 10) eqn:Hc.
  - apply N.eqb_eq in Hc as ->. rewrite join_cons by done. by rewrite IH.
  - destruct (split_nl s) as [|p ps]; [done|].
    destruct ps as [|p' ps]; simpl in *; by rewrite <- IH.
Qed.

Lemma split_nlnl_nonempty (s : list N) : split_nlnl s <> [].
Proof.
  destruct s as [|c s]; simpl; [done|].
  destruct s as [|d s]; [done|].
  destruct ((c =? 10) && (d =? 10)); [done|]. by destruct (split_nlnl (d :: s)).
Qed.

Lemma split_nlnl_tight_app (b r : list N) :
  tight b = true -> split_nlnl (b ++ 10 :: 10 :: r) = b :: split_nlnl r.
Proof.
  induction b as [|c b IH]; [done|].
  intros Hb. simpl in Hb.
  change ((c :: b) ++ ?x) with (c :: (b ++ x)).
  cbn [split_nlnl]. destruct b as [|d b].
  - simpl. apply negb_true_iff in Hb. rewrite Hb. simpl.
    change (split_nlnl (10 :: 10 :: r)) with ([] :: split_nlnl r). done.
  - apply andb_true_iff in Hb as [Hcd Hb].
    rewrite IH by done. simpl. apply negb_true_iff in Hcd. by rewrite Hcd.
Qed.

Lemma split_nlnl_tight (b : list N) : tight b = true -> split_nlnl b = [b].
Proof.
  induction b as [|c b IH]; [done|].
  intros Hb. simpl in Hb. cbn [split_nlnl]. destruct b as [|d b]; [done|].
  apply andb_true_iff in Hb as [Hcd Hb].
  rewrite IH by done. apply negb_true_iff in Hcd. by rewrite Hcd.
Qed.

Lemma split_nlnl_join (bs : list (list N)) :
  bs <> [] -> forallb tight bs = true -> split_nlnl (join nlnl bs) = bs.
Proof.
  induction bs as [|b bs IH]; [done|]. intros _ [Hb Hbs]%andb_true_iff.
  destruct bs as [|b' bs].
  - by apply split_nlnl_tight.
  - rewrite join_cons by done. change (nlnl ++ ?x) with (10 :: 10 :: x).
    rewrite split_nlnl_tight_app by done. by rewrite IH.
Qed.

(** ** Facts about integers and their decimal text *)

Lemma ascii_digit_cases (d : N) :
  d < 10 -> d = 0 \/ d = 1 \/ d = 2 \/ d = 3 \/ d = 4 \/ d = 5 \/ d = 6
            \/ d = 7 \/ d = 8 \/ d = 9.
Proof. lia. Qed.

Lemma ascii_digit_facts (c : N) :
  ascii_digit c = true ->
  to_decimal c = Some (c - 48) /\ isspace c = false /\ int_space c = false
  /\ (c =? 95) = false /\ (c =? 10) = false /\ (c =? 45) = false
  /\ (c =? 43) = false.
Proof.
  unfold ascii_digit. intros [H1 H2]%andb_true_iff.
  apply N.leb_le in H1, H2.
  assert (c = 48 + (c - 48)) as Hc by lia.
  destruct (ascii_digit_cases (c - 48)) as [H|[H|[H|[H|[H|[H|[H|[H|[H|H]]]]]]]]];
    [lia|..]; rewrite H in Hc; subst c; vm_compute; done.
Qed.

Lemma digits_of_ascii (fuel : nat) (n : N) (acc : list N) :
  forallb ascii_digit acc = true ->
  forallb ascii_digit (digits_of fuel n acc) = true.
Proof.
  revert n acc. induction fuel as [|fuel IH]; intros n acc Hacc; simpl; [done|].
  assert (ascii_digit (48 + n mod 10) = true) as Hd.
  { unfold ascii_digit. assert (n mod 10 < 10) by (by apply N.mod_upper_bound).
    generalize dependent (n mod 10). intros d Hd.
    apply andb_true_iff. split; apply N.leb_le; lia. }
  destruct (n <? 10); [|apply IH]; simpl; by rewrite Hd.
Qed.

Lemma digits_of_nonempty (fuel : nat) (n : N) (acc : list N) :
  digits_of (S fuel) n acc <> [].
Proof.
  revert n acc. induction fuel as [|fuel IH]; intros n acc.
  - simpl. by destruct (n <? 10).
  - change (digits_of (S (S fuel)) n acc)
      with (if n <? 10 then (48 + n mod 10) :: acc
            else digits_of (S fuel) (n / 10) ((48 + n mod 10) :: acc)).
    destruct (n <? 10); [done|apply IH].
Qed.

Lemma digits_of_value (fuel : nat) (n : N) (acc : list N) :
  n < 2 ^ N.of_nat fuel ->
  digits_value (digits_of fuel n acc) 0 = digits_value acc n.
Proof.
  revert n acc. induction fuel as [|fuel IH]; intros n acc Hn.
  - simpl in *. by replace n with 0 by lia.
  - simpl digits_of. destruct (n <? 10) eqn:Hlt.
    + apply N.ltb_lt in Hlt. unfold digits_value. simpl.
      f_equal. rewrite N.mod_small by done. lia.
    + apply N.ltb_ge in Hlt. rewrite IH.
      * unfold digits_value. simpl. f_equal.
        assert (n = 10 * (n / 10) + n mod 10) as Hdm by (by apply N.div_mod).
        revert Hdm. generalize (n mod 10), (n / 10). intros m q Hdm. lia.
      * rewrite Nat2N.inj_succ, N.pow_succ_r' in Hn.
        apply N.Div0.div_lt_upper_bound. lia.
Qed.

Lemma int_digits_ascii (ds : list N) (acc : N) :
  forallb ascii_digit ds = true ->
  int_digits acc false ds = Some (digits_value ds acc, []).
Proof.
  revert acc. induction ds as [|c ds IH]; intros acc; simpl; [done|].
  intros [Hc Hds]%andb_true_iff.
  destruct (ascii_digit_facts c Hc) as (Hdec & _ & _ & Hus & _).
  rewrite Hus, Hdec. by apply IH.
Qed.

Lemma str_of_N_value (n : N) :
  forallb ascii_digit (str_of_N n) = true
  /\ str_of_N n <> []
  /\ int_digits 0 false (str_of_N n) = Some (n, []).
Proof.
  unfold str_of_N. split; [by apply digits_of_ascii|].
  split; [apply digits_of_nonempty|].
  rewrite int_digits_ascii by (by apply digits_of_ascii).
  rewrite digits_of_value; [done|].
  destruct n as [|p]; [done|].
  rewrite Nat2N.inj_succ, N2Nat.id.
  apply N.log2_spec. lia.
Qed.

Lemma py_int_ascii_digits (ds : list N) (n : N) (negative : bool) :
  forallb ascii_digit ds = true -> ds <> [] ->
  int_digits 0 false ds = Some (n, []) ->
  py_int (if negative then 45 :: ds else ds)
  = Some (if negative then - Z.of_N n else Z.of_N n)%Z.
Proof.
  intros Hds Hne Hval. destruct ds as [|c ds]; [done|].
  apply andb_true_iff in Hds as [Hc Hds].
  destruct (ascii_digit_facts c Hc) as (Hdec & _ & Hsp & _ & _ & Hm & Hp).
  assert (isdecimal c = true) as Hd by (unfold isdecimal; by rewrite Hdec).
  unfold py_int. destruct negative.
  - change (skip_int_space (45 :: c :: ds)) with (45 :: c :: ds).
    cbv iota beta. rewrite N.eqb_refl. rewrite Hd, Hval. done.
  - cbn [skip_int_space]. rewrite Hsp, Hm, Hp. rewrite Hd, Hval. done.
Qed.

(** [int(str(z)) == z] *)
Lemma py_int_py_str (z : Z) : py_int (py_str z) = Some z.
Proof.
  destruct z as [|p|p]; [done|..].
  - destruct (str_of_N_value (Npos p)) as (Ha & Hne & Hv).
    exact (py_int_ascii_digits _ _ false Ha Hne Hv).
  - destruct (str_of_N_value (Npos p)) as (Ha & Hne & Hv).
    exact (py_int_ascii_digits _ _ true Ha Hne Hv).
Qed.

Lemma py_str_shape (z : Z) :
  exists c s, py_str z = c :: s /\ isspace c = false /\ no_nl (c :: s) = true.
Proof.
  assert (forall ds, forallb ascii_digit ds = true -> no_nl ds = true) as Hnl.
  { induction ds as [|c ds IH]; [done|]. simpl.
    intros [Hc Hds]%andb_true_iff.
    destruct (ascii_digit_facts c Hc) as (_ & _ & _ & _ & Hc10 & _).
    rewrite Hc10. simpl. by apply IH. }
  assert (forall n, exists c s, str_of_N n = c :: s /\ isspace c = false
                                /\ no_nl (c :: s) = true) as Hn.
  { intros n. destruct (str_of_N_value n) as (Ha & Hne & _).
    destruct (str_of_N n) as [|c s] eqn:E; [done|]. exists c, s.
    split; [done|]. split; [|by apply Hnl].
    apply andb_true_iff in Ha as [Hc _].
    by destruct (ascii_digit_facts c Hc) as (_ & Hs & _). }
  destruct z as [|p|p]; simpl; [apply Hn..|].
  destruct (Hn (Npos p)) as (c & s & E & _ & Hs).
  exists 45, (str_of_N (N.pos p)). split; [done|]. split; [done|].
  rewrite E. done.
Qed.

(** ** Parsing and serializing *)

Lemma export_entries_spec (subs : list subtitle) (f : list N) :
  export_entries subs f = f ++ concat (map export_block subs).
Proof.
  revert f. induction subs as [|sub subs IH]; intros f; simpl.
  - by rewrite app_nil_r.
  - rewrite IH. unfold write, export_block. by rewrite <- !app_assoc.
Qed.

Lemma join_cons_head (sep : list N) (c : N) (p : list N) (ps : list (list N)) :
  join sep ((c :: p) :: ps) = c :: join sep (p :: ps).
Proof. by destruct ps. Qed.

Lemma join_split_nlnl_bounded (n : nat) (s : list N) :
  (length s <= n)%nat -> join nlnl (split_nlnl s) = s.
Proof.
  revert s. induction n as [|n IH]; intros s Hn.
  - destruct s; [done|simpl in Hn; lia].
  - destruct s as [|c r]; [done|]. simpl in Hn.
    assert (join nlnl (split_nlnl r) = r) as Hr by (apply IH; lia).
    assert (join nlnl match split_nlnl r with
                      | piece :: pieces => (c :: piece) :: pieces
                      | [] => [[c]]
                      end = c :: r) as Hcont.
    { pose proof (split_nlnl_nonempty r).
      destruct (split_nlnl r) as [|p ps]; [done|].
      by rewrite join_cons_head, Hr. }
    cbn [split_nlnl]. destruct r as [|d r']; [done|].
    destruct ((c =? 10) && (d =? 10)) eqn:Hcd; [|done].
    apply andb_true_iff in Hcd as [->%N.eqb_eq ->%N.eqb_eq].
    rewrite join_cons by apply split_nlnl_nonempty.
    rewrite IH by (simpl in Hn; lia). done.
Qed.

(** The pieces [split('\n\n')] returns, put together again with blank lines
    between them, are the text that was split. *)
Lemma join_split_nlnl (s : list N) : join nlnl (split_nlnl s) = s.
Proof. by apply (join_split_nlnl_bounded (length s)). Qed.

Lemma parse_blocks_short (block : list N) (blocks : list (list N))
    (acc : list subtitle) :
  shaped block = false ->
  parse_blocks (block :: blocks) acc = parse_blocks blocks acc.
Proof. unfold shaped. intros H. cbn [parse_blocks]. cbv zeta. by rewrite H. Qed.

Lemma parse_blocks_entry (block : list N) (blocks : list (list N))
    (acc : list subtitle) (n : Z) :
  shaped block = true ->
  py_int (nth 0 (split_nl (strip block)) []) = Some n ->
  parse_blocks (block :: blocks) acc
  = parse_blocks blocks (acc ++ [entry_of_lines (split_nl (strip block)) n]).
Proof.
  unfold shaped. intros H Hn. cbn [parse_blocks]. cbv zeta. by rewrite H, Hn.
Qed.

Lemma parse_blocks_bad_id (block : list N) (blocks : list (list N))
    (acc : list subtitle) :
  shaped block = true ->
  py_int (nth 0 (split_nl (strip block)) []) = None ->
  parse_blocks (block :: blocks) acc = Raise ValueError.
Proof.
  unfold shaped. intros H Hn. cbn [parse_blocks]. cbv zeta. by rewrite H, Hn.
Qed.

Lemma parse_blocks_cases (block : list N) (blocks : list (list N))
    (acc : list subtitle) :
  (shaped block = false
   /\ parse_blocks (block :: blocks) acc = parse_blocks blocks acc)
  \/ (shaped block = true
      /\ py_int (nth 0 (split_nl (strip block)) []) = None
      /\ parse_blocks (block :: blocks) acc = Raise ValueError)
  \/ (exists n, shaped block = true
      /\ py_int (nth 0 (split_nl (strip block)) []) = Some n
      /\ parse_blocks (block :: blocks) acc
         = parse_blocks blocks (acc ++ [entry_of_lines (split_nl (strip block)) n])).
Proof.
  destruct (shaped block) eqn:Hs.
  - destruct (py_int (nth 0 (split_nl (strip block)) [])) as [n|] eqn:Hn.
    + right; right. exists n. by rewrite (parse_blocks_entry _ _ _ n).
    + right; left. by rewrite parse_blocks_bad_id.
  - left. by rewrite parse_blocks_short.
Qed.

Lemma parse_blocks_skip (before after : list (list N)) (block : list N)
    (acc : list subtitle) :
  shaped block = false ->
  parse_blocks (before ++ block :: after) acc = parse_blocks (before ++ after) acc.
Proof.
  intros Hb. revert acc. induction before as [|b before IH]; intros acc.
  - by apply parse_blocks_short.
  - change ((b :: before) ++ ?x) with (b :: (before ++ x)).
    destruct (parse_blocks_cases b (before ++ block :: after) acc)
      as [[Hs ->]|[(Hs & Hn & ->)|(n & Hs & Hn & ->)]].
    + rewrite parse_blocks_short by done. apply IH.
    + by rewrite parse_blocks_bad_id.
    + rewrite (parse_blocks_entry _ _ _ n) by done. apply IH.
Qed.

Lemma parse_blocks_raise (before after : list (list N)) (block : list N)
    (acc : list subtitle) :
  shaped block = true ->
  py_int (nth 0 (split_nl (strip block)) []) = None ->
  parse_blocks (before ++ block :: after) acc = Raise ValueError.
Proof.
  intros Hb Hn. revert acc. induction before as [|b before IH]; intros acc.
  - by apply parse_blocks_bad_id.
  - change ((b :: before) ++ ?x) with (b :: (before ++ x)).
    destruct (parse_blocks_cases b (before ++ block :: after) acc)
      as [[Hs ->]|[(Hs & Hn' & ->)|(n & Hs & Hn' & ->)]]; [apply IH|done|apply IH].
Qed.

Lemma parse_blocks_ok (blocks : list (list N)) (acc subs : list subtitle) :
  parse_blocks blocks acc = Ok subs ->
  exists new, subs = acc ++ new
              /\ Forall2 block_entry (List.filter shaped blocks) new.
Proof.
  revert acc. induction blocks as [|b blocks IH]; intros acc.
  - simpl. intros [= <-]. exists []. by rewrite app_nil_r.
  - destruct (parse_blocks_cases b blocks acc)
      as [[Hs ->]|[(Hs & Hn & ->)|(n & Hs & Hn & ->)]]; [|done|].
    + intros H. simpl. rewrite Hs. by apply IH.
    + intros (new & -> & Hnew)%IH. simpl. rewrite Hs.
      exists (entry_of_lines (split_nl (strip b)) n :: new).
      rewrite <- app_assoc. split; [done|]. constructor; [|done].
      by exists n.
Qed.

(** ** Well-formed blocks *)

Lemma join_app_last (sep l w : list N) (pre : list (list N)) :
  join sep (pre ++ [l ++ w]) = join sep (pre ++ [l]) ++ w.
Proof.
  destruct pre as [|p pre]; [done|].
  rewrite !join_snoc by done. by rewrite <- !app_assoc.
Qed.

Lemma trim_last_snoc (pre : list (list N)) (l : list N) :
  trim_last (pre ++ [l]) = pre ++ [rstrip l].
Proof.
  induction pre as [|p pre IH]; [done|].
  change ((p :: pre) ++ ?x) with (p :: (pre ++ x)).
  cbn [trim_last]. rewrite IH. by destruct pre.
Qed.

Lemma tight_no_nl (l : list N) : no_nl l = true -> tight l = true.
Proof.
  unfold no_nl. induction l as [|c l IH]; [done|]. simpl.
  intros [Hc Hl]%andb_true_iff. destruct l as [|d l]; [done|].
  rewrite IH by done. apply negb_true_iff in Hc. by rewrite Hc.
Qed.

Lemma tight_line_app (l r : list N) (d : N) :
  is_line l = true -> (d =? 10) = false -> tight (d :: r) = true ->
  tight (l ++ 10 :: d :: r) = true.
Proof.
  unfold is_line, no_nl. intros [Hne Hl]%andb_true_iff Hd Hr.
  induction l as [|c l IH]; [done|]. clear Hne.
  simpl in Hl. apply andb_true_iff in Hl as [Hc Hl].
  apply negb_true_iff in Hc.
  change ((c :: l) ++ ?x) with (c :: (l ++ x)). cbn [tight].
  destruct l as [|c' l].
  - cbn [app]. rewrite Hc. cbn [andb negb].
    change (tight (10 :: d :: r))
      with (negb ((10 =? 10) && (d =? 10)) && tight (d :: r)).
    by rewrite Hd, Hr, andb_false_r.
  - change ((c' :: l) ++ ?x) with (c' :: (l ++ x)) in *.
    rewrite Hc. cbn [andb negb]. by apply IH.
Qed.

Lemma is_line_head (l : list N) :
  is_line l = true -> exists c s, l = c :: s /\ (c =? 10) = false.
Proof.
  unfold is_line, no_nl. destruct l as [|c s]; [done|]. simpl.
  intros [Hc _]%andb_true_iff. exists c, s. by apply negb_true_iff in Hc.
Qed.

Lemma join_lines_head (l : list N) (ls : list (list N)) :
  is_line l = true -> exists c s, join nl (l :: ls) = c :: s /\ (c =? 10) = false.
Proof.
  intros (c & s & -> & Hc)%is_line_head.
  destruct ls as [|l' ls]; [by exists c, s|].
  rewrite join_cons by done. by exists c, (s ++ nl ++ join nl (l' :: ls)).
Qed.

Lemma tight_join_lines (ls : list (list N)) :
  forallb is_line ls = true -> tight (join nl ls) = true.
Proof.
  induction ls as [|l ls IH]; [done|]. intros [Hl Hls]%andb_true_iff.
  destruct ls as [|l' ls].
  - apply tight_no_nl. unfold is_line in Hl. by apply andb_true_iff in Hl as [_ ?].
  - rewrite join_cons by done.
    pose proof Hls as [Hl' _]%andb_true_iff.
    destruct (join_lines_head l' ls Hl') as (d & r & E & Hd).
    specialize (IH Hls). rewrite E in *.
    by apply tight_line_app.
Qed.

Lemma is_line_no_nl (l : list N) : is_line l = true -> no_nl l = true.
Proof. unfold is_line. by intros [_ ?]%andb_true_iff. Qed.

Lemma has_text_nonempty (l : list N) : has_text l = true -> l <> [].
Proof. by destruct l. Qed.

Lemma has_text_app_r (a b : list N) : has_text b = true -> has_text (a ++ b) = true.
Proof. unfold has_text. intros H. rewrite existsb_app, H. apply orb_true_r. Qed.

Lemma has_text_app_l (a b : list N) : has_text a = true -> has_text (a ++ b) = true.
Proof. unfold has_text. intros H. by rewrite existsb_app, H. Qed.

Lemma has_text_rstrip (l : list N) : has_text l = true -> has_text (rstrip l) = true.
Proof.
  intros H. destruct (rstrip_spec l) as (w & E & Hw).
  rewrite E in H. unfold has_text in *. rewrite existsb_app in H.
  apply orb_true_iff in H as [H|H]; [done|].
  exfalso. clear E. induction w as [|c w IH]; [done|]. simpl in *.
  apply andb_true_iff in Hw as [Hc Hw]. rewrite Hc in H. simpl in H. auto.
Qed.

Lemma no_nl_app (a b : list N) : no_nl (a ++ b) = no_nl a && no_nl b.
Proof. apply forallb_app. Qed.

Lemma is_line_rstrip (l : list N) :
  is_line l = true -> has_text l = true -> is_line (rstrip l) = true.
Proof.
  intros Hl Ht. apply is_line_no_nl in Hl.
  destruct (rstrip_spec l) as (w & E & Hw).
  rewrite E, no_nl_app in Hl. apply andb_true_iff in Hl as [Hl _].
  unfold is_line. rewrite Hl, andb_true_r.
  apply has_text_rstrip, has_text_nonempty in Ht.
  apply negb_true_iff, bool_decide_eq_false. done.
Qed.

(** A well-formed block seen from its last text line. *)
Lemma well_formed_block_last (b : block) :
  well_formed_block b = true ->
  exists pre l, block_text b = pre ++ [l]
    /\ is_line (block_timing b) = true
    /\ forallb is_line pre = true /\ is_line l = true /\ has_text l = true.
Proof.
  unfold well_formed_block. intros [[Ht Hls]%andb_true_iff Hlast]%andb_true_iff.
  destruct (block_text b) as [|l0 ls] using rev_ind; [done|].
  rewrite last_snoc in Hlast. rewrite forallb_app in Hls.
  apply andb_true_iff in Hls as [Hpre Hl]. simpl in Hl.
  rewrite andb_true_r in Hl. by exists ls, l0.
Qed.

Lemma py_str_is_line (z : Z) : is_line (py_str z) = true.
Proof.
  destruct (py_str_shape z) as (c & s & E & _ & Hnl).
  unfold is_line. by rewrite E, Hnl.
Qed.

Lemma block_facts (b : block) :
  well_formed_block b = true ->
  (exists w, join nl (block_lines b) = join nl (trimmed_lines b) ++ w
             /\ forallb isspace w = true /\ no_nl w = true)
  /\ tight (join nl (block_lines b)) = true
  /\ tight (join nl (trimmed_lines b)) = true
  /\ (exists c s, join nl (trimmed_lines b) = c :: s /\ isspace c = false)
  /\ rstrip (join nl (trimmed_lines b)) = join nl (trimmed_lines b)
  /\ split_nl (join nl (trimmed_lines b)) = trimmed_lines b
  /\ (exists t ts, trim_last (block_text b) = t :: ts).
Proof.
  intros (pre & l & Etext & Htiming & Hpre & Hl & Htext)%well_formed_block_last.
  unfold block_lines, trimmed_lines. rewrite Etext, trim_last_snoc.
  destruct (rstrip_spec l) as (w & El & Hw).
  pose proof (is_line_rstrip l Hl Htext) as Hl'.
  pose proof (py_str_is_line (block_id b)) as Hid.
  assert (forallb is_line (py_str (block_id b) :: block_timing b :: pre ++ [l])
          = true) as Hlines.
  { simpl. rewrite Hid, Htiming, forallb_app, Hpre. simpl. by rewrite Hl. }
  assert (forallb is_line
            (py_str (block_id b) :: block_timing b :: pre ++ [rstrip l])
          = true) as Hlines'.
  { simpl. rewrite Hid, Htiming, forallb_app, Hpre. simpl. by rewrite Hl'. }
  repeat split.
  - exists w. split; [|split; [done|]].
    + rewrite El at 1.
      by rewrite !app_comm_cons, join_app_last.
    + apply is_line_no_nl in Hl. rewrite El, no_nl_app in Hl.
      by apply andb_true_iff in Hl as [_ ?].
  - by apply tight_join_lines.
  - by apply tight_join_lines.
  - destruct (py_str_shape (block_id b)) as (c & s & E & Hc & _).
    rewrite E. rewrite join_cons by done. by exists c, (s ++ nl ++ join nl (block_timing b :: pre ++ [rstrip l])).
  - rewrite !app_comm_cons. rewrite join_snoc by done.
    rewrite !app_assoc. rewrite rstrip_app_text by (by apply has_text_rstrip).
    by rewrite rstrip_idem.
  - apply split_nl_join; [done|].
    clear -Hlines'. induction (_ :: _ :: _) as [|x xs IH]; [done|].
    simpl in *. apply andb_true_iff in Hlines' as [Hx Hxs].
    rewrite (is_line_no_nl x Hx). by apply IH.
  - destruct pre; by eexists _, _.
Qed.

Lemma strip_block (b : block) (w : list N) :
  well_formed_block b = true -> forallb isspace w = true ->
  strip (join nl (trimmed_lines b) ++ w) = join nl (trimmed_lines b).
Proof.
  intros (_ & _ & _ & (c & s & E & Hc) & Hr & _)%block_facts Hw.
  unfold strip. rewrite E at 1. cbn [app].
  rewrite lstrip_text_head by done.
  change (c :: s ++ w) with ((c :: s) ++ w). rewrite <- E.
  by rewrite rstrip_app_space.
Qed.

(** A well-formed block, whatever white space ends it, is parsed to its
    entry. *)
Lemma parse_blocks_well_formed (b : block) (w : list N)
    (blocks : list (list N)) (acc : list subtitle) :
  well_formed_block b = true -> forallb isspace w = true ->
  parse_blocks ((join nl (trimmed_lines b) ++ w) :: blocks) acc
  = parse_blocks blocks (acc ++ [entry_of_block b]).
Proof.
  intros Hb Hw.
  pose proof (strip_block b w Hb Hw) as Hs.
  destruct (block_facts b Hb) as (_ & _ & _ & _ & _ & Hsplit & (t & ts & Ht)).
  rewrite (parse_blocks_entry _ _ _ (block_id b)).
  - rewrite Hs, Hsplit. done.
  - unfold shaped. rewrite Hs, Hsplit. unfold trimmed_lines. by rewrite Ht.
  - rewrite Hs, Hsplit. apply py_int_py_str.
Qed.

(** ** Well-formed documents are parsed block by block *)

Lemma parse_blocks_texts (blocks : list block) (texts : list (list N))
    (acc : list subtitle) :
  Forall2 (fun b text => well_formed_block b = true /\ block_text_of b text)
    blocks texts ->
  parse_blocks texts acc = Ok (acc ++ map entry_of_block blocks).
Proof.
  intros H. revert acc.
  induction H as [|b text blocks texts [Hb Ht] _ IH]; intros acc.
  - simpl. by rewrite app_nil_r.
  - assert (exists w, text = join nl (trimmed_lines b) ++ w
                      /\ forallb isspace w = true) as (w & -> & Hw).
    { destruct Ht as [->| ->].
      - destruct (block_facts b Hb) as ((w & E & Hw & _) & _). by exists w.
      - exists []. by rewrite app_nil_r. }
    rewrite parse_blocks_well_formed by done.
    rewrite IH. simpl. by rewrite <- app_assoc.
Qed.

Lemma block_texts_tight (blocks : list block) (texts : list (list N)) :
  Forall2 (fun b text => well_formed_block b = true /\ block_text_of b text)
    blocks texts ->
  forallb tight texts = true.
Proof.
  induction 1 as [|b text blocks texts [Hb Ht] _ IH]; [done|].
  simpl. rewrite IH, andb_true_r.
  destruct (block_facts b Hb) as (_ & H1 & H2 & _).
  by destruct Ht as [->| ->].
Qed.

Lemma block_texts_whole (blocks : list block) :
  forallb well_formed_block blocks = true ->
  Forall2 (fun b text => well_formed_block b = true /\ block_text_of b text)
    blocks (map (fun b => join nl (block_lines b)) blocks).
Proof.
  induction blocks as [|b blocks IH]; simpl; [constructor|].
  intros [Hb Hbs]%andb_true_iff. constructor; [|by apply IH].
  split; [done|by left].
Qed.

Lemma block_text_head (b : block) (text : list N) :
  well_formed_block b = true -> block_text_of b text ->
  exists c s, text = c :: s /\ isspace c = false.
Proof.
  intros Hb Ht.
  destruct (block_facts b Hb) as ((w & E & _) & _ & _ & (c & s & Ec & Hc) & _).
  destruct Ht as [->| ->].
  - rewrite E, Ec. by exists c, (s ++ w).
  - by exists c, s.
Qed.

Lemma strip_document (bs : list block) (b : block) (ws : list N) :
  forallb well_formed_block bs = true -> well_formed_block b = true ->
  forallb isspace ws = true ->
  strip (join nlnl (map (fun b => join nl (block_lines b)) bs
                    ++ [join nl (trimmed_lines b)]) ++ ws)
  = join nlnl (map (fun b => join nl (block_lines b)) bs
               ++ [join nl (trimmed_lines b)]).
Proof.
  intros Hbs Hb Hws.
  destruct (block_facts b Hb) as (_ & _ & _ & (c & s & Ec & Hc) & Hr & _).
  assert (has_text (join nl (trimmed_lines b)) = true) as Htext.
  { rewrite Ec. unfold has_text. simpl. by rewrite Hc. }
  set (D := join nlnl _).
  assert (rstrip D = D) as HrD.
  { subst D. destruct bs as [|b0 bs]; [done|].
    rewrite join_snoc by done. rewrite !app_assoc.
    rewrite rstrip_app_text by done. by rewrite Hr. }
  assert (exists c s, D = c :: s /\ isspace c = false) as (c' & s' & ED & Hc').
  { subst D. destruct bs as [|b0 bs]; [by exists c, s|].
    simpl in Hbs. apply andb_true_iff in Hbs as [Hb0 _].
    destruct (block_text_head b0 (join nl (block_lines b0)) Hb0)
      as (c0 & s0 & E0 & Hc0); [by left|].
    cbn [map app]. rewrite E0, join_cons_head. by eexists _, _. }
  unfold strip. rewrite ED at 1. cbn [app]. rewrite lstrip_text_head by done.
  change (c' :: s' ++ ws) with ((c' :: s') ++ ws). rewrite <- ED.
  by rewrite rstrip_app_space.
Qed.

(** A well-formed document is parsed to the entries of its blocks, in their
    order. *)
Lemma parse_document (blocks : list block) (trailing : list N) :
  forallb well_formed_block blocks = true -> forallb isspace trailing = true ->
  parse_content (document blocks trailing) = Ok (map entry_of_block blocks).
Proof.
  intros Hblocks Htrailing. unfold parse_content, document.
  destruct blocks as [|b bs _] using rev_ind.
  - cbn [map join app]. unfold strip.
    rewrite lstrip_all_space by done. done.
  - rewrite forallb_app in Hblocks. apply andb_true_iff in Hblocks as [Hbs Hb].
    simpl in Hb. rewrite andb_true_r in Hb.
    destruct (block_facts b Hb) as ((w & E & Hw & _) & _).
    rewrite map_app. cbn [map]. rewrite E, join_app_last, <- app_assoc.
    rewrite strip_document;
      [|done|done|by rewrite forallb_app, Hw, Htrailing].
    assert (Forall2 (fun b text => well_formed_block b = true
                                   /\ block_text_of b text)
              (bs ++ [b])
              (map (fun b => join nl (block_lines b)) bs
               ++ [join nl (trimmed_lines b)])) as HF.
    { apply Forall2_app; [by apply block_texts_whole|].
      constructor; [|constructor]. split; [done|by right]. }
    rewrite split_nlnl_join.
    + by rewrite (parse_blocks_texts _ _ _ HF).
    + by destruct bs.
    + by apply (block_texts_tight _ _ HF).
Qed.

(** ** Normalization *)

Lemma norm_lines_app_nl (a b : list N) :
  norm_lines (a ++ 10 :: b) = norm_lines a ++ norm_lines b.
Proof. unfold norm_lines. by rewrite split_nl_app_nl, map_app. Qed.

Lemma norm_lines_app_space (a w : list N) :
  forallb isspace w = true -> no_nl w = true ->
  norm_lines (a ++ w) = norm_lines a.
Proof.
  intros Hw Hnl. unfold norm_lines.
  destruct (split_nl_app_no_nl a w Hnl) as (ls & l & -> & ->).
  rewrite !map_app. simpl. by rewrite rstrip_app_space.
Qed.

Lemma norm_lines_nonempty (s : list N) : norm_lines s <> [].
Proof.
  unfold norm_lines. pose proof (split_nl_nonempty s). by destruct (split_nl s).
Qed.

Lemma normalize_snoc_space (s : list N) (c : N) :
  isspace c = true -> normalize (s ++ [c]) = normalize s.
Proof.
  intros Hc. unfold normalize. destruct (c =? 10) eqn:Hnl.
  - apply N.eqb_eq in Hnl as ->. rewrite norm_lines_app_nl.
    change (norm_lines []) with [@nil N].
    rewrite join_snoc by apply norm_lines_nonempty.
    rewrite app_nil_r. by apply rstrip_app_space.
  - rewrite norm_lines_app_space; [done|..]; simpl; by rewrite ?Hc, ?Hnl.
Qed.

Lemma normalize_app_space (s w : list N) :
  forallb isspace w = true -> normalize (s ++ w) = normalize s.
Proof.
  revert s. induction w as [|c w IH]; intros s; [by rewrite app_nil_r|].
  simpl. intros [Hc Hw]%andb_true_iff.
  change (s ++ c :: w) with (s ++ [c] ++ w). rewrite app_assoc.
  rewrite IH by done. by apply normalize_snoc_space.
Qed.

Lemma norm_lines_join_blocks (xs ys : list (list N)) :
  Forall2 (fun x y => norm_lines x = norm_lines y) xs ys ->
  norm_lines (join nlnl xs) = norm_lines (join nlnl ys).
Proof.
  induction 1 as [|x y xs ys Hxy Hrest IH]; [done|].
  destruct Hrest as [|x' y' xs ys Hxy' Hrest]; [exact Hxy|].
  rewrite (join_cons nlnl x (x' :: xs)), (join_cons nlnl y (y' :: ys)) by done.
  change (nlnl ++ ?z) with (10 :: 10 :: z).
  rewrite !norm_lines_app_nl, Hxy.
  assert (forall z, norm_lines (10 :: z) = [] :: norm_lines z) as Hnl by done.
  by rewrite !Hnl, IH.
Qed.

Lemma concat_join (sep : list N) (xs : list (list N)) :
  xs <> [] -> concat (map (fun x => x ++ sep) xs) = join sep xs ++ sep.
Proof.
  induction xs as [|x xs IH]; [done|]. intros _.
  destruct xs as [|x' xs]; [simpl; by rewrite app_nil_r|].
  rewrite join_cons by done. cbn [map concat]. cbn [map concat] in IH.
  rewrite IH by done. by rewrite <- !app_assoc.
Qed.

Lemma export_block_copy (b : block) :
  well_formed_block b = true ->
  export_block (set_translated_text (original_text (entry_of_block b))
                  (entry_of_block b))
  = join nl (trimmed_lines b) ++ nlnl.
Proof.
  intros (_ & _ & _ & _ & _ & _ & (t & ts & Ht))%block_facts.
  unfold export_block, trimmed_lines.
  cbn [entry_of_block set_translated_text id timing translated_text
       original_text].
  rewrite Ht.
  rewrite (join_cons nl (py_str (block_id b)) (block_timing b :: t :: ts)),
    (join_cons nl (block_timing b) (t :: ts)) by done.
  rewrite <- !app_assoc. reflexivity.
Qed.

Lemma export_copy_document (blocks : list block) :
  forallb well_formed_block blocks = true ->
  export_entries (copy_source (map entry_of_block blocks)) []
  = concat (map (fun b => join nl (trimmed_lines b) ++ nlnl) blocks).
Proof.
  intros Hblocks. rewrite export_entries_spec. cbn [app].
  unfold copy_source.
  induction blocks as [|b blocks IH]; [done|].
  simpl in Hblocks. apply andb_true_iff in Hblocks as [Hb Hbs].
  cbn [map concat]. rewrite IH by done. by rewrite export_block_copy.
Qed.

Lemma norm_lines_blocks (blocks : list block) :
  forallb well_formed_block blocks = true ->
  Forall2 (fun x y => norm_lines x = norm_lines y)
    (map (fun b => join nl (trimmed_lines b)) blocks)
    (map (fun b => join nl (block_lines b)) blocks).
Proof.
  induction blocks as [|b blocks IH]; [intros _; constructor|].
  cbn [map forallb]. intros [Hb Hbs]%andb_true_iff.
  constructor; [|by apply IH].
  destruct (block_facts b Hb) as ((w & -> & Hw & Hnl) & _).
  by rewrite norm_lines_app_space.
Qed.

(** C1: serializing the result of parsing a well-formed document, with every
    entry's translated text set to its source text, writes the document
    again, up to white space at the end of lines and of the document. *)
Theorem round_trip (blocks : list block) (trailing file_path output_path : list N)
    (fs : gmap (list N) (list N)) :
  forallb well_formed_block blocks = true ->
  forallb isspace trailing = true ->
  fs !! file_path = Some (document blocks trailing) ->
  exists subs written,
    parse_srt file_path fs = Ok subs
    /\ export_srt (copy_source subs) output_path fs !! output_path = Some written
    /\ normalize written = normalize (document blocks trailing).
Proof.
  intros Hblocks Htrailing Hfile.
  exists (map entry_of_block blocks), 
    (concat (map (fun b => join nl (trimmed_lines b) ++ nlnl) blocks)).
  split; [|split].
  - unfold parse_srt. rewrite Hfile. by apply parse_document.
  - unfold export_srt. rewrite lookup_insert_eq.
    by rewrite export_copy_document.
  - unfold document. rewrite normalize_app_space by done.
    destruct blocks as [|b blocks]; [done|].
    rewrite <- (map_map (fun b => join nl (trimmed_lines b)) (fun x => x ++ nlnl)).
    rewrite concat_join by done.
    rewrite normalize_app_space by done.
    unfold normalize. f_equal. f_equal.
    by apply norm_lines_join_blocks, norm_lines_blocks.
Qed.

Example sample_document_blocks : document sample_blocks nlnl = sample_document.
Proof. reflexivity. Qed.

Lemma round_trip_witness :
  forallb well_formed_block shuffled_blocks = true
  /\ forallb isspace [10; 32; 10] = true
  /\ exists subs written,
       parse_srt in_path {[ in_path := document shuffled_blocks [10; 32; 10] ]}
       = Ok subs
       /\ export_srt (copy_source subs) out_path
            {[ in_path := document shuffled_blocks [10; 32; 10] ]} !! out_path
          = Some written
       /\ normalize written = normalize (document shuffled_blocks [10; 32; 10]).
Proof.
  split; [vm_compute; reflexivity|].
  split; [vm_compute; reflexivity|].
  apply (round_trip shuffled_blocks).
  - vm_compute; reflexivity.
  - vm_compute; reflexivity.
  - apply lookup_singleton_eq.
Defined.

(** The scenario of the specification: two blocks, two entries. *)
Example scenario_parse :
  parse_srt in_path {[ in_path := sample_document ]}
  = Ok [ {| id := 1; timing := py "00:00:01,000 --> 00:00:02,000";
            original_text := py "Hello"; translated_text := [];
            needs_review := false |};
         {| id := 2; timing := py "00:00:03,000 --> 00:00:04,000";
            original_text := py "World"; translated_text := [];
            needs_review := false |} ].
Proof. vm_compute. reflexivity. Qed.

(** The two entries exported with translations in Myanmar script. *)
Example scenario_export :
  export_srt
    [ set_translated_text
        [0x1019; 0x1004; 0x103A; 0x1039; 0x1002; 0x101C; 0x102C; 0x1015; 0x102B]
        hello_entry;
      set_translated_text [0x1000; 0x1019; 0x1039; 0x1018; 0x102C] world_entry ]
    out_path ∅ !! out_path
  = Some (py "1
00:00:01,000 --> 00:00:02,000
" ++ [0x1019; 0x1004; 0x103A; 0x1039; 0x1002; 0x101C; 0x102C; 0x1015; 0x102B]
     ++ py "

2
00:00:03,000 --> 00:00:04,000
" ++ [0x1000; 0x1019; 0x1039; 0x1018; 0x102C] ++ py "

").
Proof. vm_compute. reflexivity. Qed.

(** An id line that [int] accepts but [str] does not write that way comes
    back rewritten: such a line is not part of a well-formed block. *)
Example id_line_is_rewritten :
  parse_content (py "007
00:00:01,000 --> 00:00:02,000
Hello")
  = Ok [ {| id := 7; timing := py "00:00:01,000 --> 00:00:02,000";
            original_text := py "Hello"; translated_text := [];
            needs_review := false |} ]
  /\ export_entries
       [ {| id := 7; timing := py "00:00:01,000 --> 00:00:02,000";
            original_text := py "Hello"; translated_text := py "Hello";
            needs_review := false |} ] []
     = py "7
00:00:01,000 --> 00:00:02,000
Hello

".
Proof. split; vm_compute; reflexivity. Qed.

(** A block whose only text line is white space has two lines once it is
    stripped, and is skipped. *)
Example blank_text_line_is_no_text :
  parse_content (py "1" ++ nl ++ py "00:00:01,000 --> 00:00:02,000" ++ nl
                 ++ py "  ")
  = Ok [].
Proof. vm_compute. reflexivity. Qed.

(** C8: [export_srt] writes, for every entry in order, the id line, the
    timing line and the translated text, each ended by a line break, and
    then one empty line, after the last entry as after the others; an
    entry without translated text gets an empty text line, not its source
    text; and when the translated text ends with a character that is no
    line break, the block ends with exactly one empty line. *)
Theorem export_srt_layout (subs : list subtitle) (output_path : list N)
    (fs : gmap (list N) (list N)) :
  export_srt subs output_path fs !! output_path
  = Some (concat (map export_block subs))
  /\ (forall sub,
        export_block sub
        = (py_str (id sub) ++ nl) ++ (timing sub ++ nl)
          ++ (translated_text sub ++ nl) ++ nl)
  /\ (forall sub,
        translated_text sub = [] ->
        export_block sub = py_str (id sub) ++ nl ++ timing sub ++ nl ++ nl ++ nl)
  /\ (forall sub text c,
        translated_text sub = text ++ [c] -> c <> 10 ->
        export_block sub
        = py_str (id sub) ++ nl ++ timing sub ++ nl ++ text ++ [c; 10; 10]).
Proof.
  split; [|split; [|split]].
  - unfold export_srt. rewrite lookup_insert_eq. by rewrite export_entries_spec.
  - intros sub. unfold export_block. by rewrite <- !app_assoc.
  - intros sub H. unfold export_block. by rewrite H.
  - intros sub text c H _. unfold export_block. rewrite H.
    by rewrite <- !app_assoc.
Qed.

Lemma export_srt_layout_witness :
  export_block (set_translated_text [] (entry_of_lines
     [py "1"; py "00:00:01,000 --> 00:00:02,000"; py "Hello"] 1))
  = py "1
00:00:01,000 --> 00:00:02,000


"
  /\ export_block (set_translated_text (py "Hi") (entry_of_lines
       [py "1"; py "00:00:01,000 --> 00:00:02,000"; py "Hello"] 1))
     = py "1
00:00:01,000 --> 00:00:02,000
Hi

".
Proof.
  pose proof (export_srt_layout [] out_path ∅) as (_ & _ & Hempty & Hlast).
  split.
  - rewrite Hempty; reflexivity.
  - rewrite (Hlast _ (py "H") 105); [reflexivity|reflexivity|].
    vm_compute. discriminate.
Defined.

(** C5: a block with fewer than three lines is skipped, the result being
    that of the other blocks, without an error for it; a block with three
    lines or more whose first line is no integer makes the whole call fail
    with [ValueError], and no list of entries is returned. *)
Theorem parse_srt_skips_or_fails (content file_path block : list N)
    (before after : list (list N)) (fs : gmap (list N) (list N)) :
  fs !! file_path = Some content ->
  split_nlnl (strip content) = before ++ block :: after ->
  (shaped block = false ->
   parse_srt file_path fs = parse_blocks (before ++ after) [])
  /\ (shaped block = true ->
      py_int (nth 0 (split_nl (strip block)) []) = None ->
      parse_srt file_path fs = Raise ValueError).
Proof.
  intros Hfile Hsplit. unfold parse_srt, parse_content. rewrite Hfile, Hsplit.
  split.
  - apply parse_blocks_skip.
  - apply parse_blocks_raise.
Qed.

Lemma parse_srt_skips_or_fails_witness :
  parse_srt in_path {[ in_path := document_with_note ]}
  = Ok [ entry_of_lines [py "9"; py "00:00:01,000 --> 00:00:02,000"; py "Hello"] 9;
         entry_of_lines [py "4"; py "00:00:03,000 --> 00:00:04,000"; py "World"] 4 ]
  /\ parse_srt in_path {[ in_path := document_with_bad_id ]} = Raise ValueError.
Proof.
  split.
  - destruct (parse_srt_skips_or_fails document_with_note in_path
                (py "a note")
                [py "9
00:00:01,000 --> 00:00:02,000
Hello"]
                [py "4
00:00:03,000 --> 00:00:04,000
World"]
                {[ in_path := document_with_note ]}) as [Hskip _].
    + apply lookup_singleton_eq.
    + vm_compute; reflexivity.
    + rewrite Hskip; [|vm_compute; reflexivity]. vm_compute; reflexivity.
  - destruct (parse_srt_skips_or_fails document_with_bad_id in_path
                (py "two
00:00:03,000 --> 00:00:04,000
World")
                [py "1
00:00:01,000 --> 00:00:02,000
Hello"]
                []
                {[ in_path := document_with_bad_id ]}) as [_ Hfail].
    + apply lookup_singleton_eq.
    + vm_compute; reflexivity.
    + apply Hfail; vm_compute; reflexivity.
Defined.

(** C2: the entries [parse_srt] returns are those of the blocks of the
    source text that have three lines or more, in the order in which the
    blocks stand in the text, each with the integer of its own first line as
    id, whatever the ids are; and [export_srt] writes, at the place of every
    entry, the decimal text of that entry's id. *)
Theorem parse_srt_keeps_order (content file_path : list N)
    (fs : gmap (list N) (list N)) (subs : list subtitle) :
  fs !! file_path = Some content ->
  parse_srt file_path fs = Ok subs ->
  join nlnl (split_nlnl (strip content)) = strip content
  /\ Forall2 block_entry (List.filter shaped (split_nlnl (strip content))) subs
  /\ (forall (output_path : list N) (k : nat) (sub : subtitle),
        subs !! k = Some sub ->
        exists rest,
          export_srt subs output_path fs !! output_path
          = Some (export_entries (take k subs) []
                  ++ py_str (id sub) ++ nl ++ rest)).
Proof.
  intros Hfile Hparse. unfold parse_srt, parse_content in Hparse.
  rewrite Hfile in Hparse.
  split; [apply join_split_nlnl|]. split.
  - apply parse_blocks_ok in Hparse as (new & -> & Hnew). done.
  - intros output_path k sub Hk.
    unfold export_srt. rewrite lookup_insert_eq.
    replace (export_entries subs [])
      with (export_entries (take k subs ++ sub :: drop (S k) subs) [])
      by (by rewrite take_drop_middle).
    rewrite !export_entries_spec, map_app, concat_app. cbn [map concat app].
    unfold export_block at 2. rewrite <- !app_assoc. by eexists.
Qed.

Lemma parse_srt_keeps_order_witness :
  exists subs,
    parse_srt in_path {[ in_path := document shuffled_blocks [] ]} = Ok subs
    /\ map id subs = [7; 3; 3]%Z
    /\ Forall2 block_entry
         (List.filter shaped (split_nlnl (strip (document shuffled_blocks []))))
         subs.
Proof.
  exists (map entry_of_block shuffled_blocks).
  assert (parse_srt in_path {[ in_path := document shuffled_blocks [] ]}
          = Ok (map entry_of_block shuffled_blocks)) as Hparse
    by (vm_compute; reflexivity).
  split; [exact Hparse|]. split; [reflexivity|].
  apply (parse_srt_keeps_order (document shuffled_blocks []) in_path
           {[ in_path := document shuffled_blocks [] ]}).
  - apply lookup_singleton_eq.
  - exact Hparse.
Defined.

(** ** The translation pass *)

Section Pass.

Variable provider : list (list N) -> list N -> option (list N).

Lemma auto_translate_all_structural (sub : subtitle) (subs : list subtitle)
    (s : state) :
  is_structural sub = true ->
  auto_translate_all provider (sub :: subs) s
  = (sub :: (auto_translate_all provider subs s).1,
     (auto_translate_all provider subs s).2).
Proof.
  unfold is_structural. intros H. cbn [auto_translate_all].
  destruct (auto_translate_all provider subs s) as [rest s'].
  destruct (re_match_digits (strip (original_text sub))); [done|].
  simpl in H. by rewrite H.
Qed.

Lemma auto_translate_all_prose (sub : subtitle) (subs : list subtitle)
    (s : state) :
  is_structural sub = false ->
  auto_translate_all provider (sub :: subs) s
  = (set_translated_text (translate_text provider (original_text sub) s).1 sub
     :: (auto_translate_all provider subs
           (translate_text provider (original_text sub) s).2).1,
     (auto_translate_all provider subs
        (translate_text provider (original_text sub) s).2).2).
Proof.
  unfold is_structural. intros [H1 H2]%orb_false_iff. cbn [auto_translate_all].
  rewrite H1, H2.
  destruct (translate_text provider (original_text sub) s) as [text s1].
  cbn [fst snd].
  by destruct (auto_translate_all provider subs s1) as [rest s2].
Qed.

Lemma auto_translate_all_app (before after : list subtitle) (s : state) :
  auto_translate_all provider (before ++ after) s
  = ((auto_translate_all provider before s).1
     ++ (auto_translate_all provider after
           (auto_translate_all provider before s).2).1,
     (auto_translate_all provider after
        (auto_translate_all provider before s).2).2).
Proof.
  revert s. induction before as [|sub before IH]; intros s.
  - simpl. by destruct (auto_translate_all provider after s).
  - change ((sub :: before) ++ after) with (sub :: (before ++ after)).
    destruct (is_structural sub) eqn:Hsub.
    + rewrite !auto_translate_all_structural by done. by rewrite IH.
    + rewrite !auto_translate_all_prose by done. by rewrite IH.
Qed.

Lemma translate_text_failure (text : list N) (s : state) :
  strip text <> [] ->
  translation_memory s !! text = None ->
  provider (requests s) text = None ->
  translate_text provider text s = (placeholder text, after_failure text s).
Proof.
  intros Hblank Hmiss Hfail. unfold translate_text.
  rewrite bool_decide_eq_false_2 by done. by rewrite Hmiss, Hfail.
Qed.

Lemma translate_text_hit (text cached : list N) (s : state) :
  strip text <> [] ->
  translation_memory s !! text = Some cached ->
  translate_text provider text s = (cached, s).
Proof.
  intros Hblank Hhit. unfold translate_text.
  rewrite bool_decide_eq_false_2 by done. by rewrite Hhit.
Qed.

Lemma translate_text_blank (text : list N) (s : state) :
  strip text = [] -> translate_text provider text s = (text, s).
Proof.
  intros Hblank. unfold translate_text. by rewrite bool_decide_eq_true_2.
Qed.

(** C3: when the provider fails for the text of an entry, the entry gets
    the placeholder [[Translation Error: text]], the entries after it are
    translated as they would be on their own, the text is not in the
    translation memory afterwards, and the next translation of the text
    asks the provider again and takes its answer. *)
Theorem provider_failure_is_contained (before after : list subtitle)
    (sub : subtitle) (s : state) :
  let text := original_text sub in
  let s1 := (auto_translate_all provider before s).2 in
  let s2 := after_failure text s1 in
  is_structural sub = false ->
  strip text <> [] ->
  translation_memory s1 !! text = None ->
  provider (requests s1) text = None ->
  auto_translate_all provider (before ++ sub :: after) s
  = ((auto_translate_all provider before s).1
     ++ set_translated_text (py "[Translation Error: " ++ text ++ py "]") sub
     :: (auto_translate_all provider after s2).1,
     (auto_translate_all provider after s2).2)
  /\ translation_memory s2 = translation_memory s1
  /\ translation_memory s2 !! text = None
  /\ requests (translate_text provider text s2).2 = requests s2 ++ [text]
  /\ (forall answer, provider (requests s2) text = Some answer ->
      (translate_text provider text s2).1 = answer).
Proof.
  intros text s1 s2 Hprose Hblank Hmiss Hfail.
  split; [|split; [done|split; [done|split]]].
  - rewrite auto_translate_all_app.
    rewrite (auto_translate_all_prose sub) by done.
    fold text s1. rewrite translate_text_failure by done. done.
  - unfold translate_text. rewrite bool_decide_eq_false_2 by done.
    change (translation_memory s2) with (translation_memory s1).
    rewrite Hmiss. by destruct (provider (requests s2) text).
  - intros answer Hanswer. unfold translate_text.
    rewrite bool_decide_eq_false_2 by done.
    change (translation_memory s2) with (translation_memory s1).
    by rewrite Hmiss, Hanswer.
Qed.

End Pass.

Lemma provider_failure_is_contained_witness :
  auto_translate_all provider_flaky [hello_entry; world_entry; hello_entry]
    empty_state
  = ([ set_translated_text (py "[Translation Error: Hello]") hello_entry;
       set_translated_text (py "Hi") world_entry;
       set_translated_text (py "Hi") hello_entry ],
     {| translation_memory :=
          <[py "Hello" := py "Hi"]> (<[py "World" := py "Hi"]> ∅);
        requests := [py "Hello"; py "World"; py "Hello"];
        fs := ∅; stdin := [] |}).
Proof.
  destruct (provider_failure_is_contained provider_flaky []
              [world_entry; hello_entry] hello_entry empty_state)
    as (Hpass & _);
    [reflexivity|vm_compute; discriminate|reflexivity|reflexivity|].
  etransitivity; [exact Hpass|]. vm_compute. reflexivity.
Defined.

Section Frame.

Variable provider : list (list N) -> list N -> option (list N).

Lemma same_but_translation_set (text : list N) (sub : subtitle) :
  same_but_translation sub (set_translated_text text sub).
Proof. by repeat split. Qed.

Lemma auto_translate_all_same (subs : list subtitle) (s : state) :
  Forall2 same_but_translation subs (auto_translate_all provider subs s).1.
Proof.
  revert s. induction subs as [|sub subs IH]; intros s; [constructor|].
  destruct (is_structural sub) eqn:Hsub.
  - rewrite auto_translate_all_structural by done.
    constructor; [by repeat split|apply IH].
  - rewrite auto_translate_all_prose by done.
    constructor; [apply same_but_translation_set|apply IH].
Qed.

(** C10: after the pass every entry has the id, the timing, the original
    text and the review flag it had before, at the position it had before;
    the list has as many entries as before. *)
Theorem auto_translate_all_frame (subs : list subtitle) (s : state) :
  Forall2 same_but_translation subs (auto_translate_all provider subs s).1
  /\ length (auto_translate_all provider subs s).1 = length subs.
Proof.
  pose proof (auto_translate_all_same subs s) as H.
  split; [done|]. symmetry. by eapply Forall2_length.
Qed.

Lemma is_structural_same (before after : subtitle) :
  same_but_translation before after ->
  is_structural after = is_structural before.
Proof. intros (_ & _ & H & _). unfold is_structural. by rewrite H. Qed.

Lemma asked_app (text : list N) (s : state) (request : list N) :
  asked text (after_failure request s)
  = (asked text s + if bool_decide (request = text) then 1 else 0)%nat.
Proof.
  unfold asked, after_failure. cbn [requests].
  rewrite List.filter_app, length_app. simpl.
  by destruct (bool_decide (request = text)).
Qed.

(** Translating another text asks nothing about [text] and leaves its
    place in the memory as it was. *)
Lemma translate_text_other (text other : list N) (s : state) :
  other <> text ->
  asked text (translate_text provider other s).2 = asked text s
  /\ translation_memory (translate_text provider other s).2 !! text
     = translation_memory s !! text.
Proof.
  intros Hne. unfold translate_text.
  destruct (bool_decide (strip other = [])); [done|].
  destruct (translation_memory s !! other); [done|].
  destruct (provider (requests s) other); cbn [snd translation_memory].
  - split; [|by rewrite lookup_insert_ne].
    change (asked text (after_failure other s) = asked text s).
    rewrite asked_app, bool_decide_eq_false_2 by done. lia.
  - split; [|done].
    change (asked text (after_failure other s) = asked text s).
    rewrite asked_app, bool_decide_eq_false_2 by done. lia.
Qed.

(** A text that is in the memory, or is blank, is not sent to the provider
    by the pass, and its entries all get the same translation. *)
Lemma pass_served (text translation : list N) (subs : list subtitle) (s : state) :
  (strip text = [] /\ translation = text)
  \/ (strip text <> [] /\ translation_memory s !! text = Some translation) ->
  asked text (auto_translate_all provider subs s).2 = asked text s
  /\ Forall (fun sub => original_text sub = text ->
                        is_structural sub = false ->
                        translated_text sub = translation)
       (auto_translate_all provider subs s).1.
Proof.
  revert s. induction subs as [|sub subs IH]; intros s Hserved.
  - split; [done|constructor].
  - destruct (is_structural sub) eqn:Hsub.
    + rewrite auto_translate_all_structural by done. cbn [fst snd].
      destruct (IH s Hserved) as [Hasked Hall]. split; [done|].
      constructor; [|done]. intros _ H. by rewrite Hsub in H.
    + rewrite auto_translate_all_prose by done. cbn [fst snd].
      destruct (decide (original_text sub = text)) as [->|Hne].
      * assert (translate_text provider text s = (translation, s)) as ->.
        { destruct Hserved as [[Hblank ->]|[Hblank Hhit]].
          - by apply translate_text_blank.
          - by apply translate_text_hit. }
        cbn [fst snd]. destruct (IH s Hserved) as [Hasked Hall].
        split; [done|]. by constructor.
      * destruct (translate_text_other text (original_text sub) s Hne)
          as [Hasked1 Hmem1].
        destruct (IH (translate_text provider (original_text sub) s).2)
          as [Hasked Hall].
        { destruct Hserved as [?|[Hblank Hhit]]; [by left|right].
          split; [done|]. by rewrite Hmem1. }
        split; [by rewrite Hasked|].
        constructor; [|done]. intros H. done.
Qed.

(** A pass over entries with other texts asks nothing about [text]. *)
Lemma pass_other (text : list N) (subs : list subtitle) (s : state) :
  Forall (fun sub => original_text sub <> text) subs ->
  asked text (auto_translate_all provider subs s).2 = asked text s
  /\ translation_memory (auto_translate_all provider subs s).2 !! text
     = translation_memory s !! text.
Proof.
  intros H. revert s. induction H as [|sub subs Hne _ IH]; intros s; [done|].
  destruct (is_structural sub) eqn:Hsub.
  - rewrite auto_translate_all_structural by done. apply IH.
  - rewrite auto_translate_all_prose by done. cbn [snd].
    destruct (translate_text_other text (original_text sub) s Hne) as [H1 H2].
    destruct (IH (translate_text provider (original_text sub) s).2) as [H3 H4].
    split; congruence.
Qed.

(** C4, amended: when the first translation of a text in a pass does not end
    in a failure of the provider (the text is blank, or in the memory, or
    the provider answers), the provider is asked for the text at most once
    in the pass, and every entry with the text gets the same translation. *)
Theorem translated_once_unless_failed (before after : list subtitle)
    (sub : subtitle) (s : state) :
  let text := original_text sub in
  let s1 := (auto_translate_all provider before s).2 in
  Forall (fun earlier => original_text earlier <> text) before ->
  is_structural sub = false ->
  strip text = [] \/ is_Some (translation_memory s1 !! text)
  \/ is_Some (provider (requests s1) text) ->
  translated_once provider (before ++ sub :: after) s text.
Proof.
  intros text s1 Hbefore Hprose Hfirst. unfold translated_once.
  rewrite auto_translate_all_app, auto_translate_all_prose by done.
  cbn [fst snd]. fold text s1.
  destruct (pass_other text before s Hbefore) as [Hasked0 _]. fold s1 in Hasked0.
  assert (exists translation,
            (translate_text provider text s1).1 = translation
            /\ (asked text (translate_text provider text s1).2
                <= asked text s + 1)%nat
            /\ ((strip text = [] /\ translation = text)
                \/ (strip text <> []
                    /\ translation_memory (translate_text provider text s1).2
                       !! text = Some translation)))
    as (translation & Hfst & Hasked1 & Hserved).
  { destruct (decide (strip text = [])) as [Hblank|Hblank].
    { exists text. rewrite translate_text_blank by done.
      split; [done|]. split; [cbn [snd]; lia|by left]. }
    destruct (translation_memory s1 !! text) as [cached|] eqn:Hmem.
    { exists cached. rewrite (translate_text_hit _ _ cached) by done.
      split; [done|]. split; [cbn [snd]; lia|by right]. }
    destruct Hfirst as [?|[[? [=]]|[answer Hanswer]]]; [done|].
    exists answer. unfold translate_text.
    rewrite bool_decide_eq_false_2 by done. rewrite Hmem, Hanswer.
    cbn [fst snd translation_memory]. split; [done|]. split.
    - change (asked text (after_failure text s1) <= asked text s + 1)%nat.
      rewrite asked_app, bool_decide_eq_true_2 by done. lia.
    - right. split; [done|]. apply lookup_insert_eq. }
  destruct (pass_served text translation after
              (translate_text provider text s1).2 Hserved) as [Hasked2 Hall].
  split; [by rewrite Hasked2|].
  exists translation. apply Forall_app. split.
  - pose proof (auto_translate_all_same before s) as Hframe.
    clear -Hframe Hbefore.
    induction Hframe as [|x y xs ys Hxy _ IH]; [constructor|].
    apply Forall_cons in Hbefore as [Hx Hxs].
    constructor; [|by apply IH].
    intros H. destruct Hxy as (_ & _ & Ho & _). congruence.
  - constructor; [|done]. intros _ _. cbn [translated_text set_translated_text].
    done.
Qed.

End Frame.

(** C4 as stated fails: the flaky provider is asked twice for the text of
    two entries with the same text, and the two get different translations. *)
Lemma translated_once_counterexample :
  asked (py "Hello")
    (auto_translate_all provider_flaky [hello_entry; hello_entry] empty_state).2
  = 2%nat
  /\ map translated_text
       (auto_translate_all provider_flaky [hello_entry; hello_entry]
          empty_state).1
     = [py "[Translation Error: Hello]"; py "Hi"]
  /\ ~ translated_once provider_flaky [hello_entry; hello_entry] empty_state
         (py "Hello").
Proof.
  split; [vm_compute; reflexivity|]. split; [vm_compute; reflexivity|].
  intros [Hasked _]. vm_compute in Hasked. lia.
Qed.

Lemma translated_once_unless_failed_witness :
  translated_once provider_up [world_entry; hello_entry; hello_entry]
    empty_state (py "Hello").
Proof.
  apply (translated_once_unless_failed provider_up [world_entry]
           [hello_entry] hello_entry empty_state).
  - repeat constructor. vm_compute. discriminate.
  - vm_compute; reflexivity.
  - right; right. vm_compute. by eexists.
Defined.

(** ** The review loop *)

Lemma getitem_in_range {A} (l : list A) (k : Z) :
  (0 <= k < Z.of_nat (length l))%Z ->
  exists x, getitem l k = Some x /\ l !! Z.to_nat k = Some x.
Proof.
  intros Hk. unfold getitem.
  destruct (Z.ltb_spec k 0); [lia|].
  destruct (lookup_lt_is_Some_2 l (Z.to_nat k)) as [x Hx]; [lia|].
  by exists x.
Qed.

Lemma setitem_original_text (l : list subtitle) (k : Z) (sub : subtitle)
    (text : list N) :
  (0 <= k)%Z -> l !! Z.to_nat k = Some sub ->
  map original_text (setitem l k (set_translated_text text sub))
  = map original_text l
  /\ length (setitem l k (set_translated_text text sub)) = length l.
Proof.
  intros Hk Hsub. unfold setitem. destruct (Z.ltb_spec k 0); [lia|].
  split; [|apply length_insert].
  change (map original_text ?x) with (original_text <$> x).
  rewrite list_fmap_insert. apply list_insert_id.
  by rewrite list_lookup_fmap, Hsub.
Qed.

Lemma review_inv_length (subs : list subtitle) (r : review) :
  review_inv subs r -> length (subtitles r) = length subs.
Proof.
  intros (H & _). apply (f_equal length) in H. by rewrite !length_map in H.
Qed.

Lemma review_inv_entry (subs : list subtitle) (r : review) :
  review_inv subs r -> (i r < Z.of_nat (length (subtitles r)))%Z ->
  exists sub sub0,
    getitem (subtitles r) (i r) = Some sub
    /\ subtitles r !! Z.to_nat (i r) = Some sub
    /\ subs !! Z.to_nat (i r) = Some sub0
    /\ is_structural sub0 = is_structural sub.
Proof.
  intros Hinv Hlt. pose proof (review_inv_length subs r Hinv) as Hlen.
  destruct Hinv as (Htexts & Hi & _).
  destruct (getitem_in_range (subtitles r) (i r)) as (sub & Hget & Hsub); [lia|].
  destruct (lookup_lt_is_Some_2 subs (Z.to_nat (i r))) as [sub0 Hsub0]; [lia|].
  exists sub, sub0. repeat split; try done.
  apply (f_equal (fun l => l !! Z.to_nat (i r))) in Htexts.
  change (map original_text ?x) with (original_text <$> x) in Htexts.
  rewrite !list_lookup_fmap, Hsub, Hsub0 in Htexts. simpl in Htexts.
  unfold is_structural. congruence.
Qed.

(** An answer that moves the cursor and reads [stdin] down to [lines]: the
    invariant holds after it and the measure is smaller. *)
Ltac cursor_moves Hgoto Hless lines :=
  split; [apply Hgoto; lia|];
  intros ? [= <-]; apply (Hless _ lines); cbn; try done; lia.

Lemma review_iteration_inv (subs : list subtitle) (r : review) :
  review_inv subs r ->
  review_inv subs (state_of (review_iteration r))
  /\ (forall r', review_iteration r = Continue r' ->
        (review_measure r' < review_measure r)%nat).
Proof.
  intros Hinv. pose proof (review_inv_length subs r Hinv) as Hlen.
  unfold review_iteration.
  destruct (Z.ltb_spec (i r) (Z.of_nat (length (subtitles r)))) as [Hlt|Hge];
    cbn [negb]; [|done].
  destruct (review_inv_entry subs r Hinv Hlt)
    as (sub & sub0 & -> & Hsub & Hsub0 & Hstruct).
  destruct Hinv as (Htexts & Hi & Hshown).
  fold (is_structural sub). destruct (is_structural sub) eqn:Hprose.
  { split.
    - split; [done|]. split; [cbn; lia|done].
    - intros r' [= <-]. unfold review_measure. cbn. lia. }
  assert (Forall (prose_at subs) (presented r ++ [i r])) as Hshown'.
  { apply Forall_app. split; [done|]. constructor; [|constructor].
    split; [lia|]. exists sub0. split; [done|congruence]. }
  cbn [world stdin subtitles i presented].
  destruct (stdin (world r)) as [|line lines] eqn:Hstdin.
  { split; [|done]. split; [done|]. split; [cbn; lia|done]. }
  assert (forall k w,
            (0 <= k <= Z.of_nat (length subs))%Z ->
            review_inv subs
              (goto k w {| subtitles := subtitles r; i := i r; world := world r;
                           presented := presented r ++ [i r] |})) as Hgoto.
  { intros k w Hk. split; [done|]. split; [cbn; lia|done]. }
  assert (forall k lines',
            (0 <= k <= Z.of_nat (length subs))%Z ->
            (length lines' < length (line :: lines))%nat ->
            forall w subs' shown,
              stdin w = lines' -> length subs' = length subs ->
              (review_measure {| subtitles := subs'; i := k; world := w;
                                 presented := shown |}
               < review_measure r)%nat) as Hless.
  { intros k lines' Hk Hlines w subs' shown Hw Hsubs'.
    unfold review_measure. cbn [subtitles i world].
    rewrite Hw, Hsubs', Hstdin, Hlen. cbn [length] in *. nia. }
  repeat case_bool_decide; cbn [state_of].
  - cursor_moves Hgoto Hless lines.
  - destruct lines as [|line' lines'].
    { split; [apply Hgoto; lia|done]. }
    case_bool_decide; cbn [state_of].
    + cursor_moves Hgoto Hless lines'.
    + destruct (setitem_original_text (subtitles r) (i r) sub (strip line'))
        as [Hmap Hlength]; [lia|done|].
      split.
      * split; [cbn; congruence|]. split; [cbn; lia|done].
      * intros r' [= <-]. apply (Hless _ lines'); cbn; try done; lia.
  - cursor_moves Hgoto Hless lines.
  - cursor_moves Hgoto Hless lines.
  - split; [apply Hgoto; lia|done].
  - cursor_moves Hgoto Hless lines.
Qed.

Lemma reachable_inv (subs : list subtitle) (s : state) (r : review) :
  reachable (review_start subs s) r -> review_inv subs r.
Proof.
  induction 1 as [|r r' _ IH Hnext].
  - split; [done|]. split; [cbn; lia|constructor].
  - destruct (review_iteration_inv subs r IH) as [Hinv _].
    by rewrite Hnext in Hinv.
Qed.

(** With fuel above the measure the loop comes to its end. *)
Lemma review_loop_ends (subs : list subtitle) (fuel : nat) (r : review) :
  review_inv subs r -> (review_measure r < fuel)%nat ->
  exists last, review_loop fuel r = Some last
               /\ (forall r', last <> Continue r')
               /\ review_inv subs (state_of last).
Proof.
  revert r. induction fuel as [|fuel IH]; intros r Hinv Hfuel; [lia|].
  destruct (review_iteration_inv subs r Hinv) as [Hinv' Hless].
  cbn [review_loop]. destruct (review_iteration r) as [r'|r'|e r'] eqn:Hiter.
  - apply IH; [done|]. specialize (Hless r' eq_refl). lia.
  - by exists (Finished r').
  - by exists (Raised e r').
Qed.

(** [interactive_review] returns or raises: the fuel it is given suffices. *)
Lemma interactive_review_ends (json_dumps : gmap (list N) (list N) -> list N)
    (subs : list subtitle) (s : state) :
  exists last, interactive_review json_dumps subs s = Some last
               /\ forall r', last <> Continue r'.
Proof.
  unfold interactive_review.
  destruct (review_loop_ends subs (review_fuel subs s) (review_start subs s))
    as (last & -> & Hlast & _).
  - split; [done|]. split; [cbn; lia|constructor].
  - unfold review_measure, review_fuel. cbn. lia.
  - destruct last as [r'|r'|e r']; [by destruct (Hlast r')|..]; by eexists.
Qed.

Lemma reachable_first (r r1 r' : review) :
  review_iteration r = Continue r1 -> reachable r1 r' -> reachable r r'.
Proof.
  intros Hfirst. induction 1 as [|r2 r3 _ IH Hnext].
  - eapply reachable_next; [apply reachable_start|done].
  - by eapply reachable_next.
Qed.

(** What the loop returns is the outcome of its last iteration, in a state
    the iterations before it lead to. *)
Lemma review_loop_reaches (fuel : nat) (r : review) (last : step) :
  review_loop fuel r = Some last ->
  exists r', reachable r r' /\ review_iteration r' = last
             /\ forall r'', last <> Continue r''.
Proof.
  revert r. induction fuel as [|fuel IH]; intros r; [done|].
  cbn [review_loop]. destruct (review_iteration r) as [r1|r1|e r1] eqn:Hiter.
  - intros (r' & Hreach & Hlast)%IH. exists r'.
    split; [by eapply reachable_first|done].
  - intros [= <-]. exists r. split; [apply reachable_start|done].
  - intros [= <-]. exists r. split; [apply reachable_start|done].
Qed.

(** Whatever way a session ends, the entries it has shown are prose and the
    cursor is between [0] and the number of entries. *)
Lemma interactive_review_shows_prose
    (json_dumps : gmap (list N) (list N) -> list N)
    (subs : list subtitle) (s : state) (last : step) :
  interactive_review json_dumps subs s = Some last ->
  Forall (prose_at subs) (presented (state_of last))
  /\ (0 <= i (state_of last) <= Z.of_nat (length subs))%Z.
Proof.
  unfold interactive_review.
  destruct (review_loop_ends subs (review_fuel subs s) (review_start subs s))
    as (last0 & -> & _ & (_ & Hi & Hshown)).
  - split; [done|]. split; [cbn; lia|constructor].
  - unfold review_measure, review_fuel. cbn. lia.
  - destruct last0 as [r'|r'|e r']; intros [= <-]; by split.
Qed.

(** C6: in every state of a session over [subs] the cursor is between [0]
    and the number of entries, so going back never takes it below [0]; the
    entries keep their original texts, and the entries shown so far, the
    one shown in the coming iteration included, are entries of prose;
    going back from a prose entry sets the cursor to [max(0, i - 1)]; and
    with the cursor on the last index, accepting ends the loop with the
    cursor equal to the number of entries. *)
Theorem review_cursor (subs : list subtitle) (s : state) (r : review) :
  reachable (review_start subs s) r ->
  (0 <= i r <= Z.of_nat (length subs))%Z
  /\ map original_text (subtitles r) = map original_text subs
  /\ Forall (prose_at subs) (presented (state_of (review_iteration r)))
  /\ (forall sub line lines,
        (i r < Z.of_nat (length subs))%Z ->
        getitem (subtitles r) (i r) = Some sub ->
        is_structural sub = false ->
        stdin (world r) = line :: lines ->
        strip line = py "4" ->
        exists r', review_iteration r = Continue r'
                   /\ i r' = Z.max 0 (i r - 1) /\ (0 <= i r')%Z)
  /\ (forall line lines,
        i r = (Z.of_nat (length subs) - 1)%Z ->
        stdin (world r) = line :: lines ->
        strip line = py "1" ->
        exists last, review_loop 2 r = Some (Finished last)
                     /\ i last = Z.of_nat (length subs)).
Proof.
  intros Hreach. pose proof (reachable_inv subs s r Hreach) as Hinv.
  pose proof (review_inv_length subs r Hinv) as Hlen.
  destruct (review_iteration_inv subs r Hinv) as [(_ & _ & Hshown) _].
  split; [apply Hinv|]. split; [apply Hinv|]. split; [done|]. split.
  - intros sub line lines Hlt Hsub Hprose Hstdin Hback.
    unfold review_iteration. rewrite Hlen.
    destruct (Z.ltb_spec (i r) (Z.of_nat (length subs))); [|lia].
    cbn [negb]. rewrite Hsub. fold (is_structural sub). rewrite Hprose.
    cbn [world stdin]. rewrite Hstdin, Hback.
    eexists. split; [reflexivity|]. cbn. lia.
  - intros line lines Hlast Hstdin Haccept.
    assert (i r < Z.of_nat (length (subtitles r)))%Z as Hlt by lia.
    destruct (review_inv_entry subs r Hinv Hlt) as (sub & _ & Hsub & _).
    assert (forall w shown,
              review_iteration
                {| subtitles := subtitles r; i := i r + 1; world := w;
                   presented := shown |}
              = Finished {| subtitles := subtitles r; i := i r + 1; world := w;
                            presented := shown |}) as Hend.
    { intros w shown. unfold review_iteration. cbn [subtitles i].
      destruct (Z.ltb_spec (i r + 1) (Z.of_nat (length (subtitles r)))); [lia|].
      done. }
    cbn [review_loop]. unfold review_iteration at 1.
    destruct (Z.ltb_spec (i r) (Z.of_nat (length (subtitles r)))); [|lia].
    cbn [negb]. rewrite Hsub. fold (is_structural sub).
    destruct (is_structural sub).
    + unfold goto. rewrite Hend. eexists. split; [reflexivity|]. cbn. lia.
    + cbn [world stdin]. rewrite Hstdin, Haccept.
      rewrite bool_decide_eq_true_2 by done.
      unfold goto. cbn [subtitles i world presented]. rewrite Hend.
      eexists. split; [reflexivity|]. cbn. lia.
Qed.

Lemma review_cursor_witness :
  (exists r',
     review_iteration (review_start sample_entries sample_session) = Continue r'
     /\ i r' = Z.max 0 (0 - 1) /\ (0 <= i r')%Z)
  /\ exists last,
       review_loop 2
         {| subtitles := sample_entries; i := 2;
            world := set_stdin [py " 1 "] sample_session;
            presented := [0%Z; 0%Z] |}
       = Some (Finished last)
       /\ i last = 3%Z.
Proof.
  assert (reachable (review_start sample_entries sample_session)
            {| subtitles := sample_entries; i := 0;
               world := set_stdin [py "1"; py " 1 "] sample_session;
               presented := [0%Z] |}) as H1.
  { eapply reachable_next; [apply reachable_start|]. vm_compute. reflexivity. }
  assert (reachable (review_start sample_entries sample_session)
            {| subtitles := sample_entries; i := 1;
               world := set_stdin [py " 1 "] sample_session;
               presented := [0%Z; 0%Z] |}) as H2.
  { eapply reachable_next; [apply H1|]. vm_compute. reflexivity. }
  assert (reachable (review_start sample_entries sample_session)
            {| subtitles := sample_entries; i := 2;
               world := set_stdin [py " 1 "] sample_session;
               presented := [0%Z; 0%Z] |}) as H3.
  { eapply reachable_next; [apply H2|]. vm_compute. reflexivity. }
  split.
  - destruct (review_cursor sample_entries sample_session _
                (reachable_start _)) as (_ & _ & _ & Hback & _).
    apply (Hback hello_entry (py "4") [py "1"; py " 1 "]);
      vm_compute; reflexivity.
  - destruct (review_cursor sample_entries sample_session _ H3)
      as (_ & _ & _ & _ & Haccept).
    apply (Haccept (py " 1 ") []); vm_compute; reflexivity.
Defined.

(** C9: an answer that is none of [1] to [5] moves the cursor forward by
    one, as the answer [3] does in its place, and leaves the entries and
    the translation memory as they are. *)
Theorem unknown_choice_skips (r : review) (sub : subtitle) (line : list N)
    (lines : list (list N)) :
  (i r < Z.of_nat (length (subtitles r)))%Z ->
  getitem (subtitles r) (i r) = Some sub ->
  is_structural sub = false ->
  stdin (world r) = line :: lines ->
  strip line <> py "1" -> strip line <> py "2" -> strip line <> py "3" ->
  strip line <> py "4" -> strip line <> py "5" ->
  review_iteration r
  = Continue {| subtitles := subtitles r; i := i r + 1;
                world := set_stdin lines (world r);
                presented := presented r ++ [i r] |}
  /\ review_iteration (goto (i r) (set_stdin (py "3" :: lines) (world r)) r)
     = review_iteration r
  /\ translation_memory (set_stdin lines (world r))
     = translation_memory (world r).
Proof.
  intros Hlt Hsub Hprose Hstdin H1 H2 H3 H4 H5.
  assert (review_iteration r
          = Continue {| subtitles := subtitles r; i := i r + 1;
                        world := set_stdin lines (world r);
                        presented := presented r ++ [i r] |}) as Hiter.
  { unfold review_iteration.
    destruct (Z.ltb_spec (i r) (Z.of_nat (length (subtitles r)))); [|lia].
    cbn [negb]. rewrite Hsub. fold (is_structural sub). rewrite Hprose.
    cbn [world stdin]. rewrite Hstdin.
    by rewrite !bool_decide_eq_false_2 by done. }
  split; [done|]. split; [|done].
  rewrite Hiter. unfold review_iteration, goto. cbn [subtitles i world presented].
  destruct (Z.ltb_spec (i r) (Z.of_nat (length (subtitles r)))); [|lia].
  cbn [negb]. rewrite Hsub. fold (is_structural sub). rewrite Hprose.
  cbn [set_stdin stdin]. done.
Qed.

Lemma unknown_choice_skips_witness :
  review_iteration
    {| subtitles := sample_entries; i := 2;
       world := set_stdin [py "yes"; py "1"] sample_session;
       presented := [0%Z] |}
  = Continue {| subtitles := sample_entries; i := 3;
                world := set_stdin [py "1"] sample_session;
                presented := [0%Z; 2%Z] |}.
Proof.
  destruct (unknown_choice_skips
              {| subtitles := sample_entries; i := 2;
                 world := set_stdin [py "yes"; py "1"] sample_session;
                 presented := [0%Z] |}
              world_entry (py "yes") [py "1"]) as (Hiter & _);
    [vm_compute; reflexivity
    |vm_compute; reflexivity
    |vm_compute; reflexivity
    |vm_compute; reflexivity
    |vm_compute; discriminate..
    |].
  exact Hiter.
Defined.

(** C7: [load_memory] returns the empty mapping when there is no file
    [translation_memory.json]; when the file is there and its text is no
    JSON, [load_memory] raises the decoder's error, and nothing else: the
    caller holds the error and the files are as they were. *)
Theorem load_memory_absent_or_corrupt
    (json_loads : list N -> option (gmap (list N) (list N)))
    (files : gmap (list N) (list N)) :
  (files !! memory_path = None -> load_memory json_loads files = Ok ∅)
  /\ (forall content,
        files !! memory_path = Some content ->
        json_loads content = None ->
        load_memory json_loads files = Raise JSONDecodeError).
Proof.
  unfold load_memory. split.
  - by intros ->.
  - by intros content -> ->.
Qed.

Lemma load_memory_absent_or_corrupt_witness :
  load_memory json_loads_empty ∅ = Ok ∅
  /\ load_memory json_loads_empty {[ memory_path := py "{oops" ]}
     = Raise JSONDecodeError.
Proof.
  split.
  - apply (load_memory_absent_or_corrupt json_loads_empty ∅).
    apply lookup_empty.
  - apply (load_memory_absent_or_corrupt json_loads_empty
             {[ memory_path := py "{oops" ]}) with (content := py "{oops").
    + apply lookup_singleton_eq.
    + vm_compute; reflexivity.
Defined.

(** ** More on parsing and serializing *)

Lemma no_text_all_space (s : list N) :
  has_text s = false -> forallb isspace s = true.
Proof.
  unfold has_text. induction s as [|c s IH]; [done|]. simpl.
  intros [Hc Hs]%orb_false_iff. apply negb_false_iff in Hc.
  rewrite Hc. by apply IH.
Qed.

Lemma strip_outer (before s after : list N) :
  forallb isspace before = true -> forallb isspace after = true ->
  strip (before ++ s ++ after) = strip s.
Proof.
  intros Hb Ha. unfold strip. rewrite lstrip_space_app by done.
  destruct (has_text s) eqn:Hs.
  - rewrite lstrip_app_text by done. by apply rstrip_app_space.
  - apply no_text_all_space in Hs.
    rewrite lstrip_space_app, (lstrip_all_space after), (lstrip_all_space s)
      by done.
    done.
Qed.

(** X1: white space before and after a document, blank lines included, does
    not change what [parse_srt] makes of it. *)
Theorem parse_ignores_outer_space (before content after file_path : list N)
    (files : gmap (list N) (list N)) :
  forallb isspace before = true -> forallb isspace after = true ->
  files !! file_path = Some (before ++ content ++ after) ->
  parse_srt file_path files = parse_content content.
Proof.
  intros Hb Ha Hfile. unfold parse_srt, parse_content.
  by rewrite Hfile, strip_outer.
Qed.

Lemma parse_ignores_outer_space_witness :
  parse_srt in_path {[ in_path := [10; 32; 10] ++ sample_document ++ [9; 10] ]}
  = parse_content sample_document.
Proof.
  apply (parse_ignores_outer_space [10; 32; 10] sample_document [9; 10]).
  - vm_compute; reflexivity.
  - vm_compute; reflexivity.
  - apply lookup_singleton_eq.
Defined.

Lemma split_nl_pieces (s : list N) : forallb no_nl (split_nl s) = true.
Proof.
  induction s as [|c s IH]; [done|]. simpl.
  destruct (c =? 10) eqn:Hc; [done|].
  pose proof (split_nl_nonempty s).
  destruct (split_nl s) as [|p ps]; [done|].
  simpl in *. unfold no_nl at 1. simpl. by rewrite Hc.
Qed.

Lemma split_nlnl_first (s p : list N) (ps : list (list N)) :
  split_nlnl s = p :: ps -> exists rest, s = p ++ rest.
Proof.
  intros H. pose proof (join_split_nlnl s) as Hj. rewrite H in Hj.
  destruct ps as [|p' ps].
  - exists []. by rewrite app_nil_r.
  - rewrite join_cons in Hj by done. by eexists.
Qed.

(** No piece of [split('\n\n')] has an empty line inside. *)
Lemma split_nlnl_pieces_bounded (n : nat) (s : list N) :
  (length s <= n)%nat ->
  Forall (fun piece => forall a b, piece <> a ++ 10 :: 10 :: b) (split_nlnl s).
Proof.
  revert s. induction n as [|n IH]; intros s Hn.
  - destruct s; [|simpl in Hn; lia].
    repeat constructor. intros a b. by destruct a.
  - destruct s as [|c r].
    { repeat constructor. intros a b. by destruct a. }
    simpl in Hn.
    assert (Forall (fun piece => forall a b, piece <> a ++ 10 :: 10 :: b)
              (split_nlnl r)) as Hr by (apply IH; lia).
    cbn [split_nlnl]. destruct r as [|d r'].
    { repeat constructor. intros [|? [|? ?]] b; done. }
    destruct ((c =? 10) && (d =? 10)) eqn:Hcd.
    { constructor; [|apply IH; simpl in Hn; lia]. intros a b. by destruct a. }
    pose proof (split_nlnl_nonempty (d :: r')) as Hne.
    destruct (split_nlnl (d :: r')) as [|p ps] eqn:Hsplit; [done|].
    apply Forall_cons in Hr as [Hp Hps]. constructor; [|done].
    intros [|x a] b; simpl; intros [= -> E].
    + destruct (split_nlnl_first _ _ _ Hsplit) as [rest Hrest].
      rewrite E in Hrest. injection Hrest as -> _. done.
    + by apply (Hp a b).
Qed.

Lemma split_nlnl_pieces (s : list N) :
  Forall (fun piece => forall a b, piece <> a ++ 10 :: 10 :: b) (split_nlnl s).
Proof. by apply (split_nlnl_pieces_bounded (length s)). Qed.

Lemma strip_middle (s : list N) :
  exists before after, s = before ++ strip s ++ after.
Proof.
  destruct (lstrip_spec s) as (w1 & E1 & _).
  destruct (rstrip_spec (lstrip s)) as (w2 & E2 & _).
  exists w1, w2. unfold strip. by rewrite <- E2.
Qed.

Lemma lstrip_head (s r : list N) (c : N) :
  lstrip s = c :: r -> isspace c = false.
Proof.
  induction s as [|x s IH]; [done|]. simpl.
  destruct (isspace x) eqn:Hx; [done|]. by intros [= <- _].
Qed.

Lemma rstrip_last (s x : list N) (c : N) :
  rstrip s = x ++ [c] -> isspace c = false.
Proof.
  unfold rstrip. intros H. apply (f_equal (@rev N)) in H.
  rewrite rev_involutive, rev_app_distr in H. simpl in H.
  by eapply lstrip_head.
Qed.

Lemma rstrip_text_last (x : list N) (c : N) :
  isspace c = false -> rstrip (x ++ [c]) = x ++ [c].
Proof.
  intros Hc. rewrite rstrip_app_text; [|unfold has_text; simpl; by rewrite Hc].
  unfold rstrip. simpl. by rewrite Hc.
Qed.

Lemma has_text_strip (s : list N) : has_text s = true -> strip s <> [].
Proof.
  intros Hs. destruct (lstrip_spec s) as (w & E & Hw).
  assert (has_text (lstrip s) = true) as Hl.
  { rewrite E in Hs. unfold has_text in *. rewrite existsb_app in Hs.
    apply orb_true_iff in Hs as [Hs|Hs]; [|done].
    exfalso. clear E. induction w as [|c w IH]; [done|]. simpl in *.
    apply andb_true_iff in Hw as [Hc Hw]. rewrite Hc in Hs. auto. }
  unfold strip. by apply has_text_nonempty, has_text_rstrip.
Qed.

(** The entry made of a block with three lines or more, none of them an
    empty second line. *)
Lemma entry_of_lines_shape (block : list N) (n : Z) :
  (forall a b, block <> a ++ 10 :: 10 :: b) ->
  shaped block = true ->
  parsed_shape (entry_of_lines (split_nl (strip block)) n).
Proof.
  intros Hblock Hshaped. unfold shaped in Hshaped.
  pose proof (join_split_nl (strip block)) as Hjoin.
  pose proof (split_nl_pieces (strip block)) as Hpieces.
  destruct (split_nl (strip block)) as [|l0 [|l1 [|l2 ls]]] eqn:Hlines;
    try done.
  clear Hshaped. unfold entry_of_lines, parsed_shape.
  cbn [translated_text needs_review timing original_text nth].
  change (drop 2 (l0 :: l1 :: l2 :: ls)) with (l2 :: ls).
  simpl in Hpieces.
  apply andb_true_iff in Hpieces as [_ [Hl1 _]%andb_true_iff].
  rewrite (join_cons nl l0), (join_cons nl l1) in Hjoin by done.
  split; [done|]. split; [done|]. split.
  { intros ->. destruct (strip_middle block) as (w1 & w2 & E).
    apply (Hblock (w1 ++ l0) (join nl (l2 :: ls) ++ w2)).
    rewrite E at 1. rewrite <- Hjoin. by rewrite <- !app_assoc. }
  split; [done|].
  assert (exists x c, join nl (l2 :: ls) = x ++ [c] /\ isspace c = false)
    as (x & c & Ho & Hc).
  { destruct (join nl (l2 :: ls)) as [|y ys] eqn:Hrest using rev_ind.
    - exfalso. rewrite app_nil_r in Hjoin.
      assert (isspace 10 = false) as H; [|done].
      apply (rstrip_last (lstrip block) (l0 ++ nl ++ l1)).
      fold (strip block). rewrite <- Hjoin. by rewrite <- !app_assoc.
    - exists ys, y. split; [done|].
      apply (rstrip_last (lstrip block) (l0 ++ nl ++ l1 ++ nl ++ ys)).
      fold (strip block). rewrite <- Hjoin. by rewrite <- !app_assoc. }
  rewrite Ho. split; [|by apply rstrip_text_last].
  apply has_text_strip, has_text_app_r. unfold has_text. simpl. by rewrite Hc.
Qed.

Lemma parse_blocks_shape (blocks : list (list N)) (acc subs : list subtitle) :
  Forall (fun piece => forall a b, piece <> a ++ 10 :: 10 :: b) blocks ->
  Forall parsed_shape acc ->
  parse_blocks blocks acc = Ok subs -> Forall parsed_shape subs.
Proof.
  intros Hblocks. revert acc.
  induction Hblocks as [|b blocks Hb _ IH]; intros acc Hacc.
  - by intros [= <-].
  - destruct (parse_blocks_cases b blocks acc)
      as [[Hs ->]|[(Hs & Hn & ->)|(n & Hs & Hn & ->)]]; [by apply IH|done|].
    apply IH. apply Forall_app. split; [done|].
    constructor; [|constructor]. by apply entry_of_lines_shape.
Qed.


(** X2: every entry [parse_srt] returns has an empty translated text and
    the review flag off, a timing that is a line and is not empty, and an
    original text that is not blank and does not end in white space. *)
Theorem parsed_entries_shape (file_path : list N)
    (files : gmap (list N) (list N)) (subs : list subtitle) :
  parse_srt file_path files = Ok subs -> Forall parsed_shape subs.
Proof.
  unfold parse_srt, parse_content.
  destruct (files !! file_path) as [content|]; [|done].
  apply parse_blocks_shape; [apply split_nlnl_pieces|constructor].
Qed.

Lemma parsed_entries_shape_witness :
  Forall parsed_shape (map entry_of_block shuffled_blocks).
Proof.
  apply (parsed_entries_shape in_path
           {[ in_path := document shuffled_blocks [10; 32; 10] ]}).
  vm_compute. reflexivity.
Defined.







(** ** More on the translation pass *)

Section PassFacts.

Variable provider : list (list N) -> list N -> option (list N).

(** The four ways of [translate_text]. *)
Lemma translate_text_cases (text : list N) (s : state) :
  (strip text = [] /\ translate_text provider text s = (text, s))
  \/ (exists cached,
        strip text <> [] /\ translation_memory s !! text = Some cached
        /\ translate_text provider text s = (cached, s))
  \/ (exists answer,
        strip text <> [] /\ translation_memory s !! text = None
        /\ provider (requests s) text = Some answer
        /\ translate_text provider text s = (answer, after_answer text answer s))
  \/ (strip text <> [] /\ translation_memory s !! text = None
      /\ provider (requests s) text = None
      /\ translate_text provider text s = (placeholder text, after_failure text s)).
Proof.
  destruct (decide (strip text = [])) as [Hblank|Hblank].
  { left. split; [done|]. by apply translate_text_blank. }
  destruct (translation_memory s !! text) as [cached|] eqn:Hmem.
  { right; left. exists cached. by rewrite (translate_text_hit _ _ cached). }
  destruct (provider (requests s) text) as [answer|] eqn:Hanswer.
  - right; right; left. exists answer. repeat split; try done.
    unfold translate_text. rewrite bool_decide_eq_false_2 by done.
    by rewrite Hmem, Hanswer.
  - right; right; right. repeat split; try done.
    by apply translate_text_failure.
Qed.

(** [translate_text] adds to the memory and to the requests, and changes
    nothing else. *)
Lemma translate_text_grows (text : list N) (s : state) :
  let s' := (translate_text provider text s).2 in
  (forall key value,
     translation_memory s !! key = Some value ->
     translation_memory s' !! key = Some value)
  /\ fs s' = fs s /\ stdin s' = stdin s
  /\ exists new, requests s' = requests s ++ new.
Proof.
  destruct (translate_text_cases text s)
    as [[_ ->]|[(c & _ & _ & ->)|[(a & _ & Hmiss & _ & ->)|(_ & _ & _ & ->)]]];
    cbn [snd].
  - split; [done|]. repeat split. exists []. by rewrite app_nil_r.
  - split; [done|]. repeat split. exists []. by rewrite app_nil_r.
  - split.
    + intros key value Hkey. cbn. rewrite lookup_insert_ne; [done|].
      intros ->. congruence.
    + repeat split. by exists [text].
  - split; [done|]. repeat split. by exists [text].
Qed.

Lemma pass_grows (subs : list subtitle) (s : state) :
  let s' := (auto_translate_all provider subs s).2 in
  (forall key value,
     translation_memory s !! key = Some value ->
     translation_memory s' !! key = Some value)
  /\ fs s' = fs s /\ stdin s' = stdin s
  /\ exists new, requests s' = requests s ++ new.
Proof.
  revert s. induction subs as [|sub subs IH]; intros s.
  - cbn. repeat split; try done. exists []. by rewrite app_nil_r.
  - destruct (is_structural sub) eqn:Hsub.
    + rewrite auto_translate_all_structural by done. apply IH.
    + rewrite auto_translate_all_prose by done. cbn [snd].
      destruct (translate_text_grows (original_text sub) s)
        as (Hmem1 & Hfs1 & Hin1 & new1 & Hreq1).
      destruct (IH (translate_text provider (original_text sub) s).2)
        as (Hmem2 & Hfs2 & Hin2 & new2 & Hreq2).
      split; [by auto|]. split; [congruence|]. split; [congruence|].
      exists (new1 ++ new2). by rewrite Hreq2, Hreq1, <- app_assoc.
Qed.

(** X4: the pass never removes or replaces a translation the memory holds,
    writes no file and reads no line; the requests made before it stay on
    record. *)
Theorem pass_keeps_memory (subs : list subtitle) (s : state) :
  (forall key value,
     translation_memory s !! key = Some value ->
     translation_memory (auto_translate_all provider subs s).2 !! key
     = Some value)
  /\ fs (auto_translate_all provider subs s).2 = fs s
  /\ stdin (auto_translate_all provider subs s).2 = stdin s
  /\ exists new,
       requests (auto_translate_all provider subs s).2 = requests s ++ new.
Proof.
  revert s. induction subs as [|sub subs IH]; intros s.
  - cbn. repeat split; try done. exists []. by rewrite app_nil_r.
  - destruct (is_structural sub) eqn:Hsub.
    + rewrite auto_translate_all_structural by done. apply IH.
    + rewrite auto_translate_all_prose by done. cbn [snd].
      destruct (translate_text_grows (original_text sub) s)
        as (Hmem1 & Hfs1 & Hin1 & new1 & Hreq1).
      destruct (IH (translate_text provider (original_text sub) s).2)
        as (Hmem2 & Hfs2 & Hin2 & new2 & Hreq2).
      split; [by auto|]. split; [congruence|]. split; [congruence|].
      exists (new1 ++ new2). by rewrite Hreq2, Hreq1, <- app_assoc.
Qed.

Lemma count_prose_cons (sub : subtitle) (subs : list subtitle) :
  count_prose (sub :: subs)
  = ((if is_structural sub then 0 else 1) + count_prose subs)%nat.
Proof.
  unfold count_prose, is_structural. simpl.
  rewrite <- negb_orb. by destruct (_ || _).
Qed.

(** X5: the provider is asked only for texts of prose entries that are not
    blank and were not in the memory when the pass began, and at most once
    for each prose entry. *)
Theorem pass_requests (subs : list subtitle) (s : state) :
  exists new,
    requests (auto_translate_all provider subs s).2 = requests s ++ new
    /\ Forall (fun text =>
                 strip text <> []
                 /\ translation_memory s !! text = None
                 /\ exists sub, In sub subs /\ original_text sub = text
                                /\ is_structural sub = false) new
    /\ (length new <= count_prose subs)%nat.
Proof.
  revert s. induction subs as [|sub subs IH]; intros s.
  - exists []. cbn. rewrite app_nil_r. split; [done|]. split; [constructor|lia].
  - rewrite count_prose_cons. destruct (is_structural sub) eqn:Hsub.
    + rewrite auto_translate_all_structural by done. cbn [snd].
      destruct (IH s) as (new & Hreq & Hnew & Hlen).
      exists new. split; [done|]. split; [|lia].
      eapply Forall_impl; [exact Hnew|].
      intros text (H1 & H2 & sub' & Hin & H3). repeat split; try done.
      exists sub'. split; [by right|done].
    + rewrite auto_translate_all_prose by done. cbn [snd].
      destruct (translate_text_grows (original_text sub) s) as (Hmem1 & _).
      destruct (IH (translate_text provider (original_text sub) s).2)
        as (new & Hreq & Hnew & Hlen).
      assert (Forall (fun text =>
                 strip text <> []
                 /\ translation_memory s !! text = None
                 /\ exists sub', In sub' (sub :: subs)
                                 /\ original_text sub' = text
                                 /\ is_structural sub' = false) new) as Hnew'.
      { eapply Forall_impl; [exact Hnew|].
        intros text (H1 & H2 & sub' & Hin & H3). split; [done|]. split.
        - destruct (translation_memory s !! text) as [v|] eqn:Hv; [|done].
          apply Hmem1 in Hv. congruence.
        - exists sub'. split; [by right|done]. }
      destruct (translate_text_cases (original_text sub) s)
        as [[_ E]|[(c & _ & _ & E)|[(a & Hb & Hmiss & _ & E)|(Hb & Hmiss & _ & E)]]];
        rewrite E in Hreq |- *; cbn [snd] in Hreq |- *.
      * exists new. split; [done|]. split; [done|lia].
      * exists new. split; [done|]. split; [done|lia].
      * exists (original_text sub :: new). split.
        { rewrite Hreq. cbn. by rewrite <- app_assoc. }
        split; [|simpl; lia]. constructor; [|done].
        repeat split; try done. exists sub. split; [by left|done].
      * exists (original_text sub :: new). split.
        { rewrite Hreq. cbn. by rewrite <- app_assoc. }
        split; [|simpl; lia]. constructor; [|done].
        repeat split; try done. exists sub. split; [by left|done].
Qed.

Lemma pass_skips_all (subs : list subtitle) (s : state) :
  Forall2 (fun before after =>
             (is_structural before = true -> after = before)
             /\ (is_structural before = false ->
                 strip (original_text before) = [] ->
                 after = set_translated_text (original_text before) before))
    subs (auto_translate_all provider subs s).1.
Proof.
  revert s. induction subs as [|sub subs IH]; intros s; [constructor|].
  destruct (is_structural sub) eqn:Hsub.
  - rewrite auto_translate_all_structural by done.
    constructor; [split; [done|congruence]|apply IH].
  - rewrite auto_translate_all_prose by done. cbn [fst].
    constructor; [|apply IH]. split; [congruence|]. intros _ Hblank.
    by rewrite translate_text_blank.
Qed.

(** X6: the pass leaves a structural entry as it is, and gives a blank
    prose entry its own text as translation. *)
Theorem pass_skips (subs : list subtitle) (s : state) :
  Forall2 (fun before after =>
             (is_structural before = true -> after = before)
             /\ (is_structural before = false ->
                 strip (original_text before) = [] ->
                 after = set_translated_text (original_text before) before))
    subs (auto_translate_all provider subs s).1.
Proof.
  revert s. induction subs as [|sub subs IH]; intros s; [constructor|].
  destruct (is_structural sub) eqn:Hsub.
  - rewrite auto_translate_all_structural by done.
    constructor; [split; [done|congruence]|apply IH].
  - rewrite auto_translate_all_prose by done. cbn [fst].
    constructor; [|apply IH]. split; [congruence|]. intros _ Hblank.
    by rewrite translate_text_blank.
Qed.

Lemma settled_grows (s s' : state) (sub : subtitle) :
  (forall key value,
     translation_memory s !! key = Some value ->
     translation_memory s' !! key = Some value) ->
  settled s sub -> settled s' sub.
Proof.
  intros Hmem [H|[H|[H1 H2]]]; [by left|by right; left|].
  right; right. split; [done|]. by apply Hmem.
Qed.

(** X7: after the pass every prose entry that is not blank has, as its
    translation, the placeholder for its text or the translation the memory
    then holds for its text. *)
Theorem pass_agrees_with_memory (subs : list subtitle) (s : state) :
  Forall (fun sub =>
            is_structural sub = false ->
            strip (original_text sub) <> [] ->
            translated_text sub = placeholder (original_text sub)
            \/ translation_memory (auto_translate_all provider subs s).2
                 !! original_text sub = Some (translated_text sub))
    (auto_translate_all provider subs s).1.
Proof.
  revert s. induction subs as [|sub subs IH]; intros s; [constructor|].
  destruct (is_structural sub) eqn:Hsub.
  - rewrite auto_translate_all_structural by done. cbn [fst snd].
    constructor; [|apply IH]. intros H. congruence.
  - rewrite auto_translate_all_prose by done. cbn [fst snd].
    constructor; [|apply IH]. intros _ Hblank.
    cbn [set_translated_text original_text translated_text].
    destruct (pass_grows subs (translate_text provider (original_text sub) s).2)
      as (Hmem & _).
    destruct (translate_text_cases (original_text sub) s)
      as [[? _]|[(c & _ & Hc & E)|[(a & _ & _ & _ & E)|(_ & _ & _ & E)]]];
      [done|..]; rewrite E in *; cbn [fst snd] in *.
    + right. by apply Hmem.
    + right. apply Hmem. cbn. apply lookup_insert_eq.
    + by left.
Qed.

(** A pass over settled entries changes nothing and asks nothing. *)
Lemma pass_settled (subs : list subtitle) (s : state) :
  Forall (settled s) subs -> auto_translate_all provider subs s = (subs, s).
Proof.
  induction 1 as [|sub subs Hsub _ IH]; [done|].
  destruct (is_structural sub) eqn:Hstruct.
  - rewrite auto_translate_all_structural by done. by rewrite IH.
  - rewrite auto_translate_all_prose by done.
    assert (translate_text provider (original_text sub) s
            = (translated_text sub, s)) as ->.
    { destruct Hsub as [H|[[Hb ->]|[Hb Hmem]]]; [congruence|..].
      - by apply translate_text_blank.
      - by apply translate_text_hit. }
    cbn [fst snd]. rewrite IH. by destruct sub.
Qed.

(** With a provider that always answers, every new request is for a text
    the memory did not hold, no text is asked twice, and every entry is
    settled at the end. *)
Lemma pass_reliable (subs : list subtitle) (s : state) :
  (forall history text, is_Some (provider history text)) ->
  exists new,
    requests (auto_translate_all provider subs s).2 = requests s ++ new
    /\ NoDup new
    /\ Forall (fun text => translation_memory s !! text = None) new
    /\ Forall (settled (auto_translate_all provider subs s).2)
         (auto_translate_all provider subs s).1.
Proof.
  intros Hup. revert s. induction subs as [|sub subs IH]; intros s.
  - exists []. cbn. rewrite app_nil_r. repeat split; constructor.
  - destruct (is_structural sub) eqn:Hsub.
    + rewrite auto_translate_all_structural by done. cbn [fst snd].
      destruct (IH s) as (new & Hreq & Hdup & Hmiss & Hall).
      exists new. repeat split; try done. constructor; [by left|done].
    + rewrite auto_translate_all_prose by done. cbn [fst snd].
      destruct (pass_grows subs (translate_text provider (original_text sub) s).2)
        as (Hmem & _).
      destruct (IH (translate_text provider (original_text sub) s).2)
        as (new & Hreq & Hdup & Hmiss & Hall).
      destruct (translate_text_cases (original_text sub) s)
        as [[Hb E]|[(c & Hb & Hc & E)|[(a & Hb & Hm & _ & E)|(_ & _ & Hf & _)]]];
        [..|by destruct (Hup (requests s) (original_text sub)) as [? ?];
             congruence];
        rewrite E in *; cbn [fst snd] in *.
      * exists new. repeat split; try done.
        constructor; [|done]. right; left. by split.
      * exists new. repeat split; try done.
        constructor; [|done]. right; right. split; [done|]. by apply Hmem.
      * exists (original_text sub :: new). split.
        { rewrite Hreq. cbn. by rewrite <- app_assoc. }
        assert (Forall (fun text => text <> original_text sub
                                    /\ translation_memory s !! text = None)
                  new) as Hnew.
        { eapply Forall_impl; [exact Hmiss|]. cbn. intros text Htext.
          apply lookup_insert_None in Htext as [? ?]. by split. }
        split; [|split].
        -- constructor; [|done]. intros Hin.
           rewrite Forall_forall in Hnew. by destruct (Hnew _ Hin).
        -- constructor; [done|].
           eapply Forall_impl; [exact Hnew|]. by intros ? [_ ?].
        -- constructor; [|done]. right; right. split; [done|].
           apply Hmem. cbn. apply lookup_insert_eq.
Qed.

(** X8: with a provider that always answers, no text is sent to it twice in
    a pass, and a second pass over the result changes no entry and asks for
    nothing. *)
Theorem pass_twice (subs : list subtitle) (s : state) :
  (forall history text, is_Some (provider history text)) ->
  (exists new,
     requests (auto_translate_all provider subs s).2 = requests s ++ new
     /\ NoDup new)
  /\ auto_translate_all provider (auto_translate_all provider subs s).1
       (auto_translate_all provider subs s).2
     = auto_translate_all provider subs s.
Proof.
  intros Hup. destruct (pass_reliable subs s Hup) as (new & Hreq & Hdup & _ & Hall).
  split; [by exists new|].
  rewrite pass_settled by done. by destruct (auto_translate_all provider subs s).
Qed.

End PassFacts.

Lemma pass_keeps_memory_witness :
  translation_memory
    (auto_translate_all provider_up [hello_entry; world_entry]
       (remember (py "Hello") (py "Salut") empty_state)).2 !! py "Hello"
  = Some (py "Salut").
Proof.
  apply (pass_keeps_memory provider_up [hello_entry; world_entry]
           (remember (py "Hello") (py "Salut") empty_state)).
  vm_compute. reflexivity.
Defined.

Lemma pass_skips_witness :
  (auto_translate_all provider_up [number_entry; hello_entry] empty_state).1
  = [number_entry; set_translated_text (py "<Hello>") hello_entry].
Proof.
  pose proof (pass_skips provider_up [number_entry; hello_entry] empty_state)
    as H.
  apply Forall2_cons_1 in H as [[H _] _].
  specialize (H eq_refl). vm_compute in H. vm_compute. reflexivity.
Defined.

Lemma pass_agrees_with_memory_witness :
  translation_memory
    (auto_translate_all provider_flaky [hello_entry; world_entry] empty_state).2
    !! py "World" = Some (py "Hi").
Proof.
  pose proof (pass_agrees_with_memory provider_flaky [hello_entry; world_entry]
                empty_state) as H.
  apply Forall_cons in H as [_ H]. apply Forall_cons in H as [H _].
  destruct H as [H|H]; [reflexivity|vm_compute; discriminate| |exact H].
  vm_compute in H. discriminate.
Defined.

Lemma pass_twice_witness :
  auto_translate_all provider_up
    (auto_translate_all provider_up [hello_entry; hello_entry] empty_state).1
    (auto_translate_all provider_up [hello_entry; hello_entry] empty_state).2
  = auto_translate_all provider_up [hello_entry; hello_entry] empty_state.
Proof.
  apply (pass_twice provider_up [hello_entry; hello_entry] empty_state).
  intros history text. by eexists.
Defined.

(** ** More on the review *)

Lemma kept_refl (sub : subtitle) : kept sub sub.
Proof. by repeat split. Qed.

Lemma kept_trans (a b c : subtitle) : kept a b -> kept b c -> kept a c.
Proof.
  intros [(A1 & A2 & A3 & A4) Ha] [(B1 & B2 & B3 & B4) Hb].
  split; [repeat split; congruence|].
  intros H. rewrite <- (Ha H). apply Hb. by rewrite (Ha H).
Qed.

Lemma Forall2_kept_refl (subs : list subtitle) : Forall2 kept subs subs.
Proof. induction subs; constructor; [apply kept_refl|done]. Qed.

Lemma Forall2_kept_trans (a b c : list subtitle) :
  Forall2 kept a b -> Forall2 kept b c -> Forall2 kept a c.
Proof.
  intros H. revert c. induction H as [|x y xs ys Hxy _ IH]; intros c Hc.
  - by inversion Hc.
  - inversion Hc as [|? z ? zs Hyz Hrest]; subst.
    constructor; [by eapply kept_trans|by apply IH].
Qed.

Lemma prose_texts_kept (a b : list subtitle) :
  Forall2 kept a b -> prose_texts b = prose_texts a.
Proof.
  unfold prose_texts. induction 1 as [|x y xs ys [Hxy _] _ IH]; [done|].
  simpl. rewrite (is_structural_same x y Hxy).
  destruct Hxy as (_ & _ & Ho & _).
  destruct (is_structural x); simpl; by rewrite IH, ?Ho.
Qed.

Lemma review_rel_refl (r : review) : review_rel r r.
Proof.
  split; [apply Forall2_kept_refl|]. repeat split; try done. by exists [].
Qed.

Lemma review_rel_trans (r0 r1 r2 : review) :
  review_rel r0 r1 -> review_rel r1 r2 -> review_rel r0 r2.
Proof.
  intros (A1 & A2 & A3 & (read1 & A4) & A5) (B1 & B2 & B3 & (read2 & B4) & B5).
  split; [by eapply Forall2_kept_trans|].
  split; [congruence|]. split; [congruence|]. split.
  - exists (read1 ++ read2). by rewrite A4, B4, <- app_assoc.
  - intros key Hkey. rewrite B5; [by apply A5|].
    by rewrite (prose_texts_kept _ _ A1).
Qed.

Lemma Forall2_kept_insert (subs : list subtitle) (n : nat) (sub : subtitle)
    (text : list N) :
  subs !! n = Some sub -> is_structural sub = false ->
  Forall2 kept subs (<[n := set_translated_text text sub]> subs).
Proof.
  revert n. induction subs as [|x xs IH]; intros n; [done|].
  destruct n as [|n]; simpl.
  - intros [= ->] Hprose. constructor; [|apply Forall2_kept_refl].
    split; [apply same_but_translation_set|congruence].
  - intros Hn Hprose. constructor; [apply kept_refl|by apply IH].
Qed.

Lemma In_prose_texts (subs : list subtitle) (n : nat) (sub : subtitle) :
  subs !! n = Some sub -> is_structural sub = false ->
  In (original_text sub) (prose_texts subs).
Proof.
  intros Hn Hprose. unfold prose_texts. apply in_map, filter_In.
  split; [|by rewrite Hprose].
  apply list_elem_of_In, list_elem_of_lookup. by exists n.
Qed.

(** One iteration, from a state of a session over [subs]. *)
Lemma review_iteration_rel (subs : list subtitle) (r : review) :
  review_inv subs r ->
  review_rel r (state_of (review_iteration r))
  /\ (forall e r', review_iteration r = Raised e r' ->
        e = EOFError /\ stdin (world r') = []).
Proof.
  intros Hinv. unfold review_iteration.
  destruct (Z.ltb_spec (i r) (Z.of_nat (length (subtitles r)))) as [Hlt|Hge];
    cbn [negb]; [|split; [apply review_rel_refl|done]].
  destruct (review_inv_entry subs r Hinv Hlt)
    as (sub & sub0 & -> & Hsub & Hsub0 & Hstruct).
  destruct Hinv as (_ & Hi & _).
  fold (is_structural sub). destruct (is_structural sub) eqn:Hprose.
  { split; [|done]. split; [apply Forall2_kept_refl|].
    repeat split; try done. by exists []. }
  cbn [world stdin subtitles i presented].
  destruct (stdin (world r)) as [|line lines] eqn:Hstdin.
  { split; [|by intros e r' [= <- <-]].
    split; [apply Forall2_kept_refl|]. repeat split; try done.
    exists []. by rewrite Hstdin. }
  assert (forall k lines' read,
            line :: lines = read ++ lines' ->
            review_rel r
              (goto k (set_stdin lines' (world r))
                 {| subtitles := subtitles r; i := i r; world := world r;
                    presented := presented r ++ [i r] |})) as Hgoto.
  { intros k lines' read Hread.
    split; [apply Forall2_kept_refl|]. repeat split; try done.
    exists read. by rewrite Hstdin. }
  repeat case_bool_decide; cbn [state_of].
  - split; [by apply (Hgoto _ _ [line])|done].
  - destruct lines as [|line' lines'].
    { split; [by apply (Hgoto _ _ [line])|]. by intros e r' [= <- <-]. }
    case_bool_decide; cbn [state_of].
    + split; [by apply (Hgoto _ _ [line; line'])|done].
    + split; [|done]. split.
      { unfold setitem. destruct (Z.ltb_spec (i r) 0); [lia|].
        by apply Forall2_kept_insert. }
      cbn. repeat split; try done.
      * exists [line; line']. by rewrite Hstdin.
      * intros key Hkey. rewrite lookup_insert_ne; [done|].
        intros <-. apply Hkey. by eapply In_prose_texts.
  - split; [by apply (Hgoto _ _ [line])|done].
  - split; [by apply (Hgoto _ _ [line])|done].
  - split; [by apply (Hgoto _ _ [line])|done].
  - split; [by apply (Hgoto _ _ [line])|done].
Qed.

Lemma review_loop_rel (subs : list subtitle) (fuel : nat) (r : review)
    (last : step) :
  review_inv subs r -> review_loop fuel r = Some last ->
  review_rel r (state_of last)
  /\ match last with
     | Continue _ => False
     | Finished _ => True
     | Raised e r' => e = EOFError /\ stdin (world r') = []
     end.
Proof.
  revert r. induction fuel as [|fuel IH]; intros r Hinv; [done|].
  destruct (review_iteration_inv subs r Hinv) as [Hinv' _].
  destruct (review_iteration_rel subs r Hinv) as [Hrel Hraised].
  cbn [review_loop]. destruct (review_iteration r) as [r'|r'|e r'] eqn:Hiter.
  - intros Hloop. destruct (IH r' Hinv' Hloop) as [Hrel' Hlast].
    split; [by eapply review_rel_trans|done].
  - by intros [= <-].
  - intros [= <-]. split; [done|]. by apply Hraised.
Qed.

Section ReviewFacts.

Variable json_dumps : gmap (list N) (list N) -> list N.

(** What a session over [subs] from [s] comes to. *)
Lemma interactive_review_rel (subs : list subtitle) (s : state) (last : step) :
  interactive_review json_dumps subs s = Some last ->
  exists r,
    review_rel (review_start subs s) r
    /\ ((last = Finished {| subtitles := subtitles r; i := i r;
                            world := save_memory json_dumps (world r);
                            presented := presented r |})
        \/ (last = Raised EOFError r /\ stdin (world r) = [])).
Proof.
  unfold interactive_review.
  destruct (review_loop (review_fuel subs s) (review_start subs s))
    as [last0|] eqn:Hloop; [|done].
  destruct (review_loop_rel subs _ _ _ (reachable_inv subs s _ (reachable_start _))
              Hloop) as [Hrel Hlast].
  destruct last0 as [r|r|e r]; [done|..]; intros [= <-]; exists r.
  - split; [done|by left].
  - destruct Hlast as [-> Hstdin]. split; [done|by right].
Qed.

(** X9: a review changes nothing of an entry but its translated text, and
    nothing at all of a structural entry; the entries stay as many, in
    their order. *)
Theorem review_keeps_entries (subs : list subtitle) (s : state) (last : step) :
  interactive_review json_dumps subs s = Some last ->
  Forall2 kept subs (subtitles (state_of last))
  /\ length (subtitles (state_of last)) = length subs.
Proof.
  intros (r & (Hkept & _) & Hlast)%interactive_review_rel.
  assert (Forall2 kept subs (subtitles (state_of last))) as H
    by (by destruct Hlast as [->|[-> _]]).
  split; [done|]. symmetry. by eapply Forall2_length.
Qed.

(** X10: a review never asks the provider and reads the operator's lines in
    their order; when it ends without an exception the memory file holds
    the memory as it then is, and no other file has changed; the only
    exception is [EOFError], raised when the lines have run out, and then
    no file has changed: the memory file is not written. *)
Theorem review_effects (subs : list subtitle) (s : state) (last : step) :
  interactive_review json_dumps subs s = Some last ->
  requests (world (state_of last)) = requests s
  /\ (exists read, stdin s = read ++ stdin (world (state_of last)))
  /\ match last with
     | Continue _ => False
     | Finished r =>
         fs (world r)
         = <[memory_path := json_dumps (translation_memory (world r))]> (fs s)
     | Raised e r =>
         e = EOFError /\ fs (world r) = fs s /\ stdin (world r) = []
     end.
Proof.
  intros (r & (_ & Hreq & Hfs & Hread & _) & Hlast)%interactive_review_rel.
  destruct Hlast as [->|[-> Hstdin]]; cbn in *.
  - split; [done|]. split; [done|]. by rewrite Hfs.
  - by repeat split.
Qed.

(** X11: a review changes the translation memory only at the original
    texts of prose entries. *)
Theorem review_memory (subs : list subtitle) (s : state) (last : step)
    (key : list N) :
  interactive_review json_dumps subs s = Some last ->
  ~ In key (prose_texts subs) ->
  translation_memory (world (state_of last)) !! key
  = translation_memory s !! key.
Proof.
  intros (r & (_ & _ & _ & _ & Hmem) & Hlast)%interactive_review_rel Hkey.
  destruct Hlast as [->|[-> _]]; cbn; by apply Hmem.
Qed.

End ReviewFacts.

Lemma getitem_setitem {A} (l : list A) (k : Z) (x : A) :
  (0 <= k < Z.of_nat (length l))%Z -> getitem (setitem l k x) k = Some x.
Proof.
  intros Hk. unfold getitem, setitem. destruct (Z.ltb_spec k 0); [lia|].
  apply list_lookup_insert_eq. lia.
Qed.

(** X12: the answer [2] followed by a text that is not blank gives the
    entry under the cursor that text, stripped, as translation and records
    it in the memory for the entry's original text, so that translating the
    original text afterwards yields it without asking the provider; followed
    by a blank text it changes neither the entries nor the memory. *)
Theorem edit_is_remembered (provider : list (list N) -> list N -> option (list N))
    (r : review) (sub : subtitle) (line new : list N) (lines : list (list N)) :
  (0 <= i r < Z.of_nat (length (subtitles r)))%Z ->
  getitem (subtitles r) (i r) = Some sub ->
  is_structural sub = false ->
  stdin (world r) = line :: new :: lines ->
  strip line = py "2" ->
  exists r',
    review_iteration r = Continue r'
    /\ i r' = (i r + 1)%Z
    /\ stdin (world r') = lines
    /\ (strip new = [] ->
        subtitles r' = subtitles r
        /\ translation_memory (world r') = translation_memory (world r))
    /\ (strip new <> [] ->
        subtitles r' = setitem (subtitles r) (i r)
                         (set_translated_text (strip new) sub)
        /\ getitem (subtitles r') (i r)
           = Some (set_translated_text (strip new) sub)
        /\ translation_memory (world r') !! original_text sub
           = Some (strip new)
        /\ (strip (original_text sub) <> [] ->
            translate_text provider (original_text sub) (world r')
            = (strip new, world r'))).
Proof.
  intros Hi Hsub Hprose Hstdin Hedit. unfold review_iteration.
  destruct (Z.ltb_spec (i r) (Z.of_nat (length (subtitles r)))); [|lia].
  cbn [negb]. rewrite Hsub. fold (is_structural sub). rewrite Hprose.
  cbn [world stdin]. rewrite Hstdin, Hedit.
  rewrite bool_decide_eq_false_2 by done.
  rewrite bool_decide_eq_true_2 by done.
  destruct (decide (strip new = [])) as [Hnew|Hnew].
  - rewrite bool_decide_eq_true_2 by done. eexists. split; [reflexivity|].
    cbn. repeat split; try done.
  - rewrite bool_decide_eq_false_2 by done. eexists. split; [reflexivity|].
    cbn [i subtitles world stdin remember set_stdin translation_memory].
    repeat split; try done.
    + by apply getitem_setitem.
    + apply lookup_insert_eq.
    + intros Hblank. apply translate_text_hit; [done|]. cbn.
      apply lookup_insert_eq.
Qed.

Lemma edit_is_remembered_witness :
  exists r',
    review_iteration (review_start sample_entries editing_session) = Continue r'
    /\ map translated_text (subtitles r') = [py "Salut"; []; []]
    /\ translate_text provider_down (py "Hello") (world r')
       = (py "Salut", world r').
Proof.
  destruct (edit_is_remembered provider_down
              (review_start sample_entries editing_session) hello_entry
              (py "2") (py " Salut ") [py "5"; py "1"])
    as (r' & Hiter & _ & _ & _ & Hnew);
    [vm_compute; split; [discriminate|reflexivity]
    |reflexivity|reflexivity|reflexivity|reflexivity|].
  exists r'. split; [exact Hiter|].
  destruct Hnew as (Hsubs & _ & _ & Htranslate); [vm_compute; discriminate|].
  split.
  - rewrite Hsubs. vm_compute. reflexivity.
  - apply Htranslate. vm_compute. discriminate.
Defined.

(** The loop passes over structural entries without reading a line. *)
Lemma review_loop_skips (pre front back : list subtitle) (s : state)
    (shown : list Z) (fuel : nat) :
  Forall (fun sub => is_structural sub = true) pre ->
  review_loop (length pre + fuel)
    {| subtitles := front ++ pre ++ back; i := Z.of_nat (length front);
       world := s; presented := shown |}
  = review_loop fuel
      {| subtitles := front ++ pre ++ back;
         i := Z.of_nat (length front + length pre);
         world := s; presented := shown |}.
Proof.
  intros Hpre. revert front.
  induction Hpre as [|sub pre Hsub _ IH]; intros front.
  - cbn [length Nat.add app]. by rewrite Nat.add_0_r.
  - cbn [length Nat.add review_loop]. unfold review_iteration at 1.
    cbn [subtitles i world].
    destruct (Z.ltb_spec (Z.of_nat (length front))
                (Z.of_nat (length (front ++ (sub :: pre) ++ back))));
      [|rewrite !length_app in *; simpl in *; lia].
    cbn [negb]. unfold getitem.
    destruct (Z.ltb_spec (Z.of_nat (length front)) 0); [lia|].
    rewrite Nat2Z.id.
    rewrite lookup_app_r, Nat.sub_diag by lia. cbn [app lookup list_lookup].
    fold (is_structural sub). rewrite Hsub. unfold goto.
    cbn [subtitles i world presented].
    specialize (IH (front ++ [sub])).
    rewrite <- !app_assoc, length_app in IH. cbn [app length] in IH.
    replace (Z.of_nat (length front) + 1)%Z
      with (Z.of_nat (length front + 1)) by lia.
    rewrite IH. do 3 f_equal. lia.
Qed.

Section ReviewEdges.

Variable json_dumps : gmap (list N) (list N) -> list N.

(** X13: when every entry is structural, and so when there is none, the
    review reads nothing, shows nothing, leaves the entries as they are and
    ends by writing the memory file. *)
Theorem review_of_structural (subs : list subtitle) (s : state) :
  Forall (fun sub => is_structural sub = true) subs ->
  interactive_review json_dumps subs s
  = Some (Finished {| subtitles := subs; i := Z.of_nat (length subs);
                      world := save_memory json_dumps s;
                      presented := [] |}).
Proof.
  intros Hsubs. unfold interactive_review, review_fuel, review_start.
  pose proof (review_loop_skips subs [] [] s []
                (S (length (stdin s) * S (length subs))) Hsubs) as Hskip.
  cbn [app length Nat.add] in Hskip. rewrite app_nil_r in Hskip.
  change (Z.of_nat 0) with 0%Z in Hskip.
  replace (S (length (stdin s) * S (length subs) + length subs))
    with (length subs + S (length (stdin s) * S (length subs)))%nat by lia.
  rewrite Hskip. cbn [review_loop]. unfold review_iteration.
  cbn [subtitles i].
  destruct (Z.ltb_spec (Z.of_nat (length subs)) (Z.of_nat (length subs)));
    [lia|done].
Qed.

(** X14: when the operator's lines have run out before the first prose
    entry is shown, the review raises [EOFError] with the cursor on that
    entry, and writes no file. *)
Theorem review_without_input (pre post : list subtitle) (sub : subtitle)
    (s : state) :
  Forall (fun sub => is_structural sub = true) pre ->
  is_structural sub = false ->
  stdin s = [] ->
  interactive_review json_dumps (pre ++ sub :: post) s
  = Some (Raised EOFError
            {| subtitles := pre ++ sub :: post; i := Z.of_nat (length pre);
               world := s; presented := [Z.of_nat (length pre)] |}).
Proof.
  intros Hpre Hprose Hstdin. unfold interactive_review, review_fuel, review_start.
  pose proof (review_loop_skips pre [] (sub :: post) s []
                (S (S (length post))) Hpre) as Hskip.
  cbn [app length Nat.add] in Hskip. change (Z.of_nat 0) with 0%Z in Hskip.
  rewrite Hstdin. cbn [length Nat.mul Nat.add].
  replace (S (length (pre ++ sub :: post)))
    with (length pre + S (S (length post)))%nat
    by (rewrite length_app; simpl; lia).
  rewrite Hskip. cbn [review_loop]. unfold review_iteration.
  cbn [subtitles i world presented].
  destruct (Z.ltb_spec (Z.of_nat (length pre))
              (Z.of_nat (length (pre ++ sub :: post))));
    [|rewrite length_app in *; simpl in *; lia].
  cbn [negb]. unfold getitem.
  destruct (Z.ltb_spec (Z.of_nat (length pre)) 0); [lia|].
  rewrite Nat2Z.id, lookup_app_r, Nat.sub_diag by lia.
  cbn [lookup list_lookup]. fold (is_structural sub). rewrite Hprose.
  by rewrite Hstdin.
Qed.

End ReviewEdges.

Lemma review_of_structural_witness :
  interactive_review json_dumps_size [number_entry; number_entry] sample_session
  = Some (Finished {| subtitles := [number_entry; number_entry]; i := 2;
                      world := save_memory json_dumps_size sample_session;
                      presented := [] |}).
Proof.
  apply (review_of_structural json_dumps_size [number_entry; number_entry]).
  repeat constructor.
Defined.

Lemma review_without_input_witness :
  interactive_review json_dumps_size [number_entry; hello_entry; world_entry]
    empty_state
  = Some (Raised EOFError
            {| subtitles := [number_entry; hello_entry; world_entry]; i := 1;
               world := empty_state; presented := [1%Z] |}).
Proof.
  apply (review_without_input json_dumps_size [number_entry] [world_entry]
           hello_entry empty_state).
  - repeat constructor.
  - reflexivity.
  - reflexivity.
Defined.

Lemma review_keeps_entries_witness :
  exists last,
    interactive_review json_dumps_size sample_entries editing_session = Some last
    /\ Forall2 kept sample_entries (subtitles (state_of last))
    /\ length (subtitles (state_of last)) = length sample_entries.
Proof.
  eexists. split; [vm_compute; reflexivity|].
  apply (review_keeps_entries json_dumps_size sample_entries editing_session).
  vm_compute. reflexivity.
Defined.

Lemma review_effects_witness :
  exists r,
    interactive_review json_dumps_size sample_entries editing_session
    = Some (Finished r)
    /\ requests (world r) = []
    /\ fs (world r) = {[ memory_path := py "{1}" ]}.
Proof.
  eexists. split; [vm_compute; reflexivity|].
  destruct (review_effects json_dumps_size sample_entries editing_session _
              ltac:(vm_compute; reflexivity)) as (Hreq & _ & Hfs).
  split; [exact Hreq|]. rewrite Hfs. vm_compute. reflexivity.
Defined.

Lemma review_memory_witness :
  exists last,
    interactive_review json_dumps_size sample_entries editing_session = Some last
    /\ translation_memory (world (state_of last)) !! py "42" = None.
Proof.
  eexists. split; [vm_compute; reflexivity|].
  rewrite (review_memory json_dumps_size sample_entries editing_session);
    [reflexivity|vm_compute; reflexivity|].
  vm_compute. intros [H|[H|[]]]; discriminate.
Defined.

(** ** Statistics *)








Section Progress.

Variable provider : list (list N) -> list N -> option (list N).
Variable json_dumps : gmap (list N) (list N) -> list N.



End Progress.


(** ** The memory file *)

(** X17: the memory written by [save_memory] is what [load_memory] returns
    from the files afterwards, whenever [json.load] reads back what
    [json.dump] wrote for it. *)
Theorem save_then_load
    (json_loads : list N -> option (gmap (list N) (list N)))
    (json_dumps : gmap (list N) (list N) -> list N) (s : state) :
  json_loads (json_dumps (translation_memory s)) = Some (translation_memory s) ->
  load_memory json_loads (fs (save_memory json_dumps s))
  = Ok (translation_memory s)
  /\ translation_memory (save_memory json_dumps s) = translation_memory s.
Proof.
  intros Hcodec. unfold load_memory, save_memory. cbn.
  by rewrite lookup_insert_eq, Hcodec.
Qed.

Lemma save_then_load_witness :
  load_memory json_loads_empty (fs (save_memory json_dumps_empty empty_state))
  = Ok ∅.
Proof.
  apply (save_then_load json_loads_empty json_dumps_empty empty_state).
  vm_compute. reflexivity.
Defined.

(** ** The main menu *)

Section MainFacts.

Variable provider : list (list N) -> list N -> option (list N).
Variable json_loads : list N -> option (gmap (list N) (list N)).
Variable json_dumps : gmap (list N) (list N) -> list N.

(** The workflow ends, and when the menu comes back it has read lines. *)
Lemma translate_file_ends (subs : list subtitle) (s : state) :
  exists last,
    translate_file provider json_dumps subs s = Some last
    /\ (forall s', last <> Quit s')
    /\ (forall s', last = Again s' ->
        exists read, read <> [] /\ stdin s = read ++ stdin s').
Proof.
  unfold translate_file.
  destruct (pass_grows provider subs s) as (_ & _ & Hstdin & _).
  destruct (auto_translate_all provider subs s) as [subs1 s1]. cbn [snd] in Hstdin.
  rewrite Hstdin. destruct (stdin s) as [|review lines] eqn:Hs.
  { eexists. split; [reflexivity|]. split; [done|done]. }
  destruct (is_yes review).
  - destruct (interactive_review_ends json_dumps subs1 (set_stdin lines s1))
      as (last & Hlast & Hnot).
    destruct (interactive_review_rel json_dumps _ _ _ Hlast)
      as (r0 & (_ & _ & _ & (read & Hread) & _) & Hcase).
    rewrite Hlast. cbn [review_start world set_stdin stdin] in Hread.
    assert (stdin (world (state_of last)) = stdin (world r0)) as Hsame
      by (by destruct Hcase as [->|[-> _]]).
    rewrite <- Hsame in Hread. clear Hsame Hcase r0.
    destruct last as [r|r|e r]; [by destruct (Hnot r)|..]; cbn [state_of] in *.
    + destruct (stdin (world r)) as [|answer lines'] eqn:Hr.
      { eexists. split; [reflexivity|]. split; [done|done]. }
      eexists. split; [reflexivity|]. split; [done|].
      intros s' [= <-]. cbn. exists (review :: read ++ [answer]).
      split; [done|]. rewrite Hread. cbn. by rewrite <- app_assoc.
    + eexists. split; [reflexivity|]. split; [done|done].
  - cbn [set_stdin stdin]. destruct lines as [|answer lines'].
    { eexists. split; [reflexivity|]. split; [done|done]. }
    eexists. split; [reflexivity|]. split; [done|].
    intros s' [= <-]. cbn. by exists [review; answer].
Qed.

(** A round of the menu ends; the menu comes back only after reading
    lines, and the program leaves only on a line that says [4]. *)
Lemma menu_round_ends (s : state) :
  exists last,
    menu_round provider json_dumps s = Some last
    /\ (forall s', last = Again s' ->
        exists read, read <> [] /\ stdin s = read ++ stdin s')
    /\ (forall s', last = Quit s' ->
        exists line, strip line = py "4" /\ stdin s = line :: stdin s').
Proof.
  unfold menu_round. destruct (stdin s) as [|line lines] eqn:Hs.
  { eexists. split; [reflexivity|]. split; done. }
  cbn [set_stdin stdin fs].
  repeat case_bool_decide.
  - destruct lines as [|line' lines'].
    { eexists. split; [reflexivity|]. split; done. }
    destruct (fs s !! strip line') eqn:Hfile.
    + destruct (parse_srt (strip line') (fs s)) as [subs|e].
      * destruct (translate_file_ends subs (set_stdin lines' (set_stdin (line' :: lines') s)))
          as (last & -> & Hquit & Hagain).
        exists last. split; [done|]. split.
        -- intros s' Hs'. destruct (Hagain s' Hs') as (read & Hne & Hread).
           cbn in Hread. exists (line :: line' :: read). split; [done|].
           by rewrite Hread.
        -- intros s' ->. by destruct (Hquit s').
      * eexists. split; [reflexivity|]. split; done.
    + eexists. split; [reflexivity|]. split; [|done].
      intros s' [= <-]. by exists [line; line'].
  - destruct (show_statistics [] (set_stdin lines s)).
    + eexists. split; [reflexivity|]. split; [|done].
      intros s' [= <-]. by exists [line].
    + eexists. split; [reflexivity|]. split; done.
  - destruct lines as [|confirm lines'].
    { eexists. split; [reflexivity|]. split; done. }
    destruct (is_yes confirm).
    + eexists. split; [reflexivity|]. split; [|done].
      intros s' [= <-]. by exists [line; confirm].
    + eexists. split; [reflexivity|]. split; [|done].
      intros s' [= <-]. by exists [line; confirm].
  - eexists. split; [reflexivity|]. split; [done|].
    intros s' [= <-]. by exists line.
  - eexists. split; [reflexivity|]. split; [|done].
    intros s' [= <-]. by exists [line].
Qed.

Lemma menu_loop_ends (fuel : nat) (s : state) :
  (length (stdin s) < fuel)%nat ->
  exists last,
    menu_loop provider json_dumps fuel s = Some last
    /\ (forall s', last <> Again s')
    /\ (forall s', last = Quit s' ->
        exists line, In line (stdin s) /\ strip line = py "4").
Proof.
  revert s. induction fuel as [|fuel IH]; intros s Hfuel; [lia|].
  destruct (menu_round_ends s) as (last & Hround & Hagain & Hquit).
  cbn [menu_loop]. rewrite Hround. destruct last as [s1|s1|c s1].
  - destruct (Hagain s1 eq_refl) as (read & Hne & Hread).
    destruct (IH s1) as (last & Hloop & Hnot & Hq).
    { rewrite Hread, length_app in Hfuel. destruct read; [done|].
      simpl in Hfuel. lia. }
    exists last. split; [done|]. split; [done|].
    intros s' Hs'. destruct (Hq s' Hs') as (line & Hin & Hline).
    exists line. split; [|done]. rewrite Hread. apply in_or_app. by right.
  - eexists. split; [reflexivity|]. split; [done|].
    intros s' [= <-]. destruct (Hquit s1 eq_refl) as (line & Hline & Hs).
    exists line. split; [|done]. rewrite Hs. by left.
  - eexists. split; [reflexivity|]. split; done.
Qed.

(** X18: [main] ends for all files and all lines of the operator, either by
    leaving the menu or with an exception; it leaves the menu only if one
    of the lines says [4]. *)
Theorem main_ends (files : gmap (list N) (list N)) (lines : list (list N)) :
  exists last,
    main provider json_loads json_dumps files lines = Some last
    /\ (forall s, last <> Again s)
    /\ (forall s, last = Quit s ->
        exists line, In line lines /\ strip line = py "4").
Proof.
  unfold main. destruct (load_memory json_loads files) as [memory|e].
  - apply (menu_loop_ends (S (length lines))
             {| translation_memory := memory; requests := [];
                fs := files; stdin := lines |}).
    cbn. lia.
  - eexists. split; [reflexivity|]. split; done.
Qed.


(** X20: the choice [3], confirmed with [y] or [Y], empties the memory and
    writes the memory file, from which the empty mapping is loaded when
    [json.load] reads back what [json.dump] wrote for it; with any other
    answer nothing changes but the lines read. *)
Theorem clear_memory_choice (s : state) (line confirm : list N)
    (lines : list (list N)) :
  stdin s = line :: confirm :: lines -> strip line = py "3" ->
  (is_yes confirm = true ->
   exists s',
     menu_round provider json_dumps s = Some (Again s')
     /\ translation_memory s' = ∅
     /\ fs s' = <[memory_path := json_dumps ∅]> (fs s)
     /\ requests s' = requests s /\ stdin s' = lines
     /\ (json_loads (json_dumps ∅) = Some ∅ ->
         load_memory json_loads (fs s') = Ok ∅))
  /\ (is_yes confirm = false ->
      menu_round provider json_dumps s = Some (Again (set_stdin lines s))).
Proof.
  intros Hs Hline.
  assert (menu_round provider json_dumps s
          = if is_yes confirm
            then Some (Again (save_memory json_dumps
                                (set_memory ∅ (set_stdin lines s))))
            else Some (Again (set_stdin lines s))) as Hround.
  { unfold menu_round. rewrite Hs, Hline.
    rewrite !bool_decide_eq_false_2 by done.
    by rewrite bool_decide_eq_true_2 by done. }
  split; intros Hyes; rewrite Hyes in Hround; [|done].
  eexists. split; [exact Hround|]. cbn. repeat split; try done.
  intros Hcodec. unfold load_memory. by rewrite lookup_insert_eq, Hcodec.
Qed.

(** X21: the choice [1] with the path of a file that does not exist brings
    the menu back with nothing changed but the lines read. *)
Theorem missing_file_choice (s : state) (line path : list N)
    (lines : list (list N)) :
  stdin s = line :: path :: lines -> strip line = py "1" ->
  fs s !! strip path = None ->
  menu_round provider json_dumps s = Some (Again (set_stdin lines s)).
Proof.
  intros Hs Hline Hfile. unfold menu_round. rewrite Hs, Hline.
  rewrite bool_decide_eq_true_2 by done. cbn [set_stdin stdin fs].
  by rewrite Hfile.
Qed.

(** X22: the choice [1] with a file that [parse_srt] rejects ends the
    program with [ValueError] before anything is translated or written. *)
Theorem bad_file_choice (s : state) (line path content : list N)
    (lines : list (list N)) :
  stdin s = line :: path :: lines -> strip line = py "1" ->
  fs s !! strip path = Some content ->
  parse_content content = Raise ValueError ->
  menu_round provider json_dumps s
  = Some (Crashed (Uncaught ValueError) (set_stdin lines s)).
Proof.
  intros Hs Hline Hfile Hparse. unfold menu_round. rewrite Hs, Hline.
  rewrite bool_decide_eq_true_2 by done. cbn [set_stdin stdin fs].
  rewrite Hfile. unfold parse_srt. by rewrite Hfile, Hparse.
Qed.



End MainFacts.

Lemma main_ends_witness :
  main provider_up json_loads_empty json_dumps_empty ∅ [py "5"; py " 4 "; py "1"]
  = Some (Quit {| translation_memory := ∅; requests := []; fs := ∅;
                  stdin := [py "1"] |}).
Proof.
  destruct (main_ends provider_up json_loads_empty json_dumps_empty ∅
              [py "5"; py " 4 "; py "1"]) as (last & Hmain & _ & Hquit).
  rewrite Hmain. vm_compute in Hmain. exact (eq_sym Hmain).
Defined.


Lemma clear_memory_choice_witness :
  exists s',
    menu_round provider_up json_dumps_empty clearing_session = Some (Again s')
    /\ translation_memory s' = ∅
    /\ load_memory json_loads_empty (fs s') = Ok ∅.
Proof.
  destruct (clear_memory_choice provider_up json_loads_empty json_dumps_empty
              clearing_session (py "3") (py " Y") [py "4"])
    as [Hyes _]; [reflexivity|reflexivity|].
  destruct Hyes as (s' & Hround & Hmem & _ & _ & _ & Hload);
    [vm_compute; reflexivity|].
  exists s'. split; [exact Hround|]. split; [exact Hmem|].
  apply Hload. vm_compute. reflexivity.
Defined.

Lemma missing_file_choice_witness :
  menu_round provider_up json_dumps_empty
    {| translation_memory := ∅; requests := []; fs := ∅;
       stdin := [py "1"; py "movie.srt"; py "4"] |}
  = Some (Again {| translation_memory := ∅; requests := []; fs := ∅;
                   stdin := [py "4"] |}).
Proof.
  apply (missing_file_choice provider_up json_dumps_empty
           {| translation_memory := ∅; requests := []; fs := ∅;
              stdin := [py "1"; py "movie.srt"; py "4"] |}
           (py "1") (py "movie.srt") [py "4"]).
  - reflexivity.
  - reflexivity.
  - apply lookup_empty.
Defined.

Lemma bad_file_choice_witness :
  menu_round provider_up json_dumps_empty
    {| translation_memory := ∅; requests := [];
       fs := {[ in_path := document_with_bad_id ]};
       stdin := [py "1"; py "movie.srt"; py "n"] |}
  = Some (Crashed (Uncaught ValueError)
            {| translation_memory := ∅; requests := [];
               fs := {[ in_path := document_with_bad_id ]};
               stdin := [py "n"] |}).
Proof.
  rewrite (bad_file_choice provider_up json_dumps_empty _
             (py "1") (py "movie.srt") document_with_bad_id [py "n"]).
  - reflexivity.
  - reflexivity.
  - reflexivity.
  - apply lookup_singleton_eq.
  - vm_compute. reflexivity.
Defined.


Lemma pass_requests_witness :
  exists new,
    requests
      (auto_translate_all provider_up [number_entry; hello_entry; hello_entry]
         empty_state).2 = [] ++ new
    /\ (length new <= 2)%nat.
Proof.
  destruct (pass_requests provider_up [number_entry; hello_entry; hello_entry]
              empty_state) as (new & Hreq & _ & Hlen).
  exists new. split; [exact Hreq|exact Hlen].
Defined.

(** ** More on the pass and the menu *)

Section Replay.

Variable provider : list (list N) -> list N -> option (list N).

(** A pass over entries whose results are known to be settled gives those
    results and changes nothing. *)
Lemma pass_replay (subs results : list subtitle) (s : state) :
  Forall2 (fun sub result =>
             same_but_translation sub result
             /\ (is_structural sub = true -> result = sub)
             /\ settled s result) subs results ->
  auto_translate_all provider subs s = (results, s).
Proof.
  induction 1 as [|sub result subs results (Hsame & Hskip & Hsettled) _ IH];
    [done|].
  destruct (is_structural sub) eqn:Hstruct.
  - rewrite auto_translate_all_structural by done.
    rewrite IH. cbn [fst snd]. by rewrite Hskip.
  - rewrite auto_translate_all_prose by done.
    pose proof (is_structural_same sub result Hsame) as Hsame'.
    destruct Hsame as (H1 & H2 & H3 & H4).
    assert (translate_text provider (original_text sub) s
            = (translated_text result, s)) as ->.
    { rewrite <- H3.
      destruct Hsettled as [H|[[Hb ->]|[Hb Hmem]]]; [congruence|..].
      - by apply translate_text_blank.
      - by apply translate_text_hit. }
    cbn [fst snd]. rewrite IH. f_equal. f_equal.
    destruct sub, result. cbn in *. by subst.
Qed.

(** X25: with a provider that always answers, translating the same entries
    again after a pass, as when the same file is parsed and translated once
    more, gives the same result and asks the provider for nothing. *)
Theorem pass_again (subs : list subtitle) (s : state) :
  (forall history text, is_Some (provider history text)) ->
  auto_translate_all provider subs (auto_translate_all provider subs s).2
  = auto_translate_all provider subs s.
Proof.
  intros Hup.
  destruct (pass_reliable provider subs s Hup) as (_ & _ & _ & _ & Hsettled).
  pose proof (auto_translate_all_same provider subs s) as Hsame.
  pose proof (pass_skips_all provider subs s) as Hskips.
  assert (Forall2 (fun sub result =>
                     same_but_translation sub result
                     /\ (is_structural sub = true -> result = sub)
                     /\ settled (auto_translate_all provider subs s).2 result)
            subs (auto_translate_all provider subs s).1) as Hall.
  { revert Hsettled Hskips Hsame.
    generalize (auto_translate_all provider subs s).1,
               (auto_translate_all provider subs s).2.
    intros results s' Hsettled Hskips Hsame. revert Hsettled Hskips.
    induction Hsame as [|x y xs ys Hxy _ IH]; [constructor|].
    intros [Hy Hys]%Forall_cons [[Hs _] Hrest]%Forall2_cons_1.
    constructor; [|by apply IH]. split; [done|]. by split. }
  rewrite (pass_replay _ _ _ Hall).
  by destruct (auto_translate_all provider subs s).
Qed.

End Replay.

Lemma pass_again_witness :
  auto_translate_all provider_up [hello_entry; world_entry]
    (auto_translate_all provider_up [hello_entry; world_entry] empty_state).2
  = auto_translate_all provider_up [hello_entry; world_entry] empty_state.
Proof.
  apply (pass_again provider_up [hello_entry; world_entry] empty_state).
  intros history text. by eexists.
Defined.


Section Crashes.

Variable provider : list (list N) -> list N -> option (list N).
Variable json_dumps : gmap (list N) (list N) -> list N.



End Crashes.

